(** * Kisumu County Referral Hospital system (AMB_KCR.py)

    A shallow embedding of the core classes of [AMB_KCR.py] -- [Hospital],
    [Patient], [Ambulance], [ReferralSystem] and [AmbulanceTracker] -- and
    the verification of their bookkeeping properties.

    Python objects are shared and mutated in place, so every object lives in
    a store indexed by its identity ([ref]); the referral ledger, the
    ambulance's [current_patient] and the hospital's [referrals_received]
    hold identities, not copies.  Methods are computations in a state and
    exception monad over that store.

    Numbers: Python [int] is [Z]; Python [float] is the IEEE binary64
    [float] of the kernel, with its own rounding at every operation; a
    [datetime] is a point on a rational time line, counted in minutes.  The
    wall clock, the pseudo-random generator, [geopy]'s geodesic distance and
    the [datetime + timedelta] arithmetic of the standard library are
    external: they are section variables, and the last two can raise. *)

From Stdlib Require Import ZArith QArith String Lia.
From Stdlib Require Import PrimFloat FloatOps SpecFloat.
From stdpp Require Import gmap strings list.

Set Warnings "-inexact-float".

Local Open Scope string_scope.
Local Open Scope list_scope.

(** ** Data model *)

(** Identity of a Python object. *)
Definition ref := nat.

Definition datetime := Q.
Definition location := (float * float)%type.

(** Values stored in the [vital_signs] dictionary. *)
Inductive pyval :=
  | PyStr (s : string)
  | PyInt (z : Z).

Record Hospital := mkHospital {
  hosp_name : string;
  hosp_location : location;
  capacity : Z;
  available_beds : Z;
  hosp_type : string;
  referrals_received : list ref        (* Patient objects *)
}.

Record Patient := mkPatient {
  pat_name : string;
  condition : string;
  severity : Z;
  vital_signs : gmap string pyval;
  pat_status : string;
  transfer_completion_time : option datetime
}.

Record Ambulance := mkAmbulance {
  amb_id : string;
  amb_location : location;
  amb_status : string;                 (* available, dispatched, en_route, arrived *)
  current_patient : option ref;        (* Patient object or None *)
  destination : option ref;            (* Hospital object or None *)
  route : list location;
  eta : option datetime
}.

(** The dictionary built by [create_referral]. *)
Record Referral := mkReferral {
  ref_id : Z;
  ref_patient : ref;
  ref_from_hospital : ref;
  ref_to_hospital : ref;
  ref_ambulance : ref;
  ref_timestamp : datetime;
  ref_status : string
}.

(** One row of the [referral_history] data frame. *)
Record HistoryRow := mkHistoryRow {
  row_Patient : string;
  row_From_Hospital : string;
  row_To_Hospital : string;
  row_Ambulance : string;
  row_Status : string;
  row_Request_Time : datetime;
  row_Completion_Time : datetime
}.

(** The object store together with the fields of the one [ReferralSystem];
    [clock_reads] and [rng_draws] count the calls made so far to
    [datetime.datetime.now] and to the random generator. *)
Record World := mkWorld {
  hospital_objs : gmap ref Hospital;
  patient_objs : gmap ref Patient;
  ambulance_objs : gmap ref Ambulance;
  hospitals : list ref;
  ambulances : list ref;
  referral_requests : list Referral;
  referral_history : list HistoryRow;
  clock_reads : nat;
  rng_draws : nat
}.

(** *** Field assignment *)

Definition set_available_beds (v : Z) (h : Hospital) : Hospital :=
  mkHospital (hosp_name h) (hosp_location h) (capacity h) v (hosp_type h)
             (referrals_received h).
Definition set_referrals_received (v : list ref) (h : Hospital) : Hospital :=
  mkHospital (hosp_name h) (hosp_location h) (capacity h) (available_beds h)
             (hosp_type h) v.

Definition set_pat_status (v : string) (p : Patient) : Patient :=
  mkPatient (pat_name p) (condition p) (severity p) (vital_signs p) v
            (transfer_completion_time p).
Definition set_transfer_completion_time (v : option datetime) (p : Patient) : Patient :=
  mkPatient (pat_name p) (condition p) (severity p) (vital_signs p)
            (pat_status p) v.

Definition set_amb_status (v : string) (a : Ambulance) : Ambulance :=
  mkAmbulance (amb_id a) (amb_location a) v (current_patient a)
              (destination a) (route a) (eta a).
Definition set_current_patient (v : option ref) (a : Ambulance) : Ambulance :=
  mkAmbulance (amb_id a) (amb_location a) (amb_status a) v
              (destination a) (route a) (eta a).
Definition set_destination (v : option ref) (a : Ambulance) : Ambulance :=
  mkAmbulance (amb_id a) (amb_location a) (amb_status a) (current_patient a)
              v (route a) (eta a).
Definition set_route (v : list location) (a : Ambulance) : Ambulance :=
  mkAmbulance (amb_id a) (amb_location a) (amb_status a) (current_patient a)
              (destination a) v (eta a).
Definition set_eta (v : option datetime) (a : Ambulance) : Ambulance :=
  mkAmbulance (amb_id a) (amb_location a) (amb_status a) (current_patient a)
              (destination a) (route a) v.

Definition set_ref_status (v : string) (r : Referral) : Referral :=
  mkReferral (ref_id r) (ref_patient r) (ref_from_hospital r)
             (ref_to_hospital r) (ref_ambulance r) (ref_timestamp r) v.

Definition with_hospital_objs (f : gmap ref Hospital → gmap ref Hospital) (w : World) : World :=
  mkWorld (f (hospital_objs w)) (patient_objs w) (ambulance_objs w)
          (hospitals w) (ambulances w) (referral_requests w)
          (referral_history w) (clock_reads w) (rng_draws w).
Definition with_patient_objs (f : gmap ref Patient → gmap ref Patient) (w : World) : World :=
  mkWorld (hospital_objs w) (f (patient_objs w)) (ambulance_objs w)
          (hospitals w) (ambulances w) (referral_requests w)
          (referral_history w) (clock_reads w) (rng_draws w).
Definition with_ambulance_objs (f : gmap ref Ambulance → gmap ref Ambulance) (w : World) : World :=
  mkWorld (hospital_objs w) (patient_objs w) (f (ambulance_objs w))
          (hospitals w) (ambulances w) (referral_requests w)
          (referral_history w) (clock_reads w) (rng_draws w).
Definition with_hospitals (f : list ref → list ref) (w : World) : World :=
  mkWorld (hospital_objs w) (patient_objs w) (ambulance_objs w)
          (f (hospitals w)) (ambulances w) (referral_requests w)
          (referral_history w) (clock_reads w) (rng_draws w).
Definition with_ambulances (f : list ref → list ref) (w : World) : World :=
  mkWorld (hospital_objs w) (patient_objs w) (ambulance_objs w)
          (hospitals w) (f (ambulances w)) (referral_requests w)
          (referral_history w) (clock_reads w) (rng_draws w).
Definition with_referral_requests (f : list Referral → list Referral) (w : World) : World :=
  mkWorld (hospital_objs w) (patient_objs w) (ambulance_objs w)
          (hospitals w) (ambulances w) (f (referral_requests w))
          (referral_history w) (clock_reads w) (rng_draws w).
Definition with_referral_history (f : list HistoryRow → list HistoryRow) (w : World) : World :=
  mkWorld (hospital_objs w) (patient_objs w) (ambulance_objs w)
          (hospitals w) (ambulances w) (referral_requests w)
          (f (referral_history w)) (clock_reads w) (rng_draws w).
Definition tick_clock (w : World) : World :=
  mkWorld (hospital_objs w) (patient_objs w) (ambulance_objs w)
          (hospitals w) (ambulances w) (referral_requests w)
          (referral_history w) (S (clock_reads w)) (rng_draws w).
Definition tick_rng (w : World) : World :=
  mkWorld (hospital_objs w) (patient_objs w) (ambulance_objs w)
          (hospitals w) (ambulances w) (referral_requests w)
          (referral_history w) (clock_reads w) (S (rng_draws w)).

(** ** The monad of methods: state over [World], with exceptions

    A raised exception carries no world: the caller keeps the world it had.
    Every exception the core can raise ([ZeroDivisionError], the
    [OverflowError] of an integer too large for a float, and what [geopy]
    or [datetime] raise) is raised before the method has assigned
    anything. *)

Inductive exn :=
  | ZeroDivisionError
  | OverflowError
  | ValueError
  | InvalidReference.      (* an identity that names no object: cannot arise in Python *)

Definition M (A : Type) : Type := World → exn + (A * World).

Definition ret {A} (a : A) : M A := fun w => inr (a, w).
Definition bind {A B} (m : M A) (k : A → M B) : M B :=
  fun w => match m w with
           | inl e => inl e
           | inr (a, w') => k a w'
           end.
Definition raise {A} (e : exn) : M A := fun _ => inl e.
Definition get : M World := fun w => inr (w, w).
(** The result of a computation that needs no world. *)
Definition lift {A} (r : exn + A) : M A :=
  fun w => match r with inl e => inl e | inr a => inr (a, w) end.
Definition modify (f : World → World) : M unit := fun w => inr (tt, f w).

Notation "'do' x <- m ; k" := (bind m (fun x => k))
  (at level 10, x name, m at level 100, k at level 200).
Notation "m ;; k" := (bind m (fun _ => k))
  (at level 100, k at level 200, right associativity).

(** Attribute access [obj.field] and assignment [obj.field = v]. *)
Definition deref {A} (store : World → gmap ref A) (r : ref) : M A :=
  fun w => match store w !! r with
           | Some o => inr (o, w)
           | None => inl InvalidReference
           end.
Definition assign {A} (store : World → gmap ref A)
    (with_store : (gmap ref A → gmap ref A) → World → World)
    (r : ref) (f : A → A) : M unit :=
  fun w => match store w !! r with
           | Some o => inr (tt, with_store (insert r (f o)) w)
           | None => inl InvalidReference
           end.

Definition hospital_get := deref hospital_objs.
Definition patient_get := deref patient_objs.
Definition ambulance_get := deref ambulance_objs.
Definition hospital_set := assign hospital_objs with_hospital_objs.
Definition patient_set := assign patient_objs with_patient_objs.
Definition ambulance_set := assign ambulance_objs with_ambulance_objs.

(** [for x in l: body], threading the loop-carried value. *)
Fixpoint for_each {A S} (l : list A) (body : A → S → M S) (s : S) : M S :=
  match l with
  | [] => ret s
  | x :: l' => do s' <- body x s; for_each l' body s'
  end.

(** [range(lo, hi)] *)
Definition py_range (lo hi : Z) : list Z :=
  map (fun k => (lo + Z.of_nat k)%Z) (seq 0 (Z.to_nat (hi - lo))).

(** [list.remove(x)]: drops the first occurrence. *)
Fixpoint list_remove_first (x : ref) (l : list ref) : list ref :=
  match l with
  | [] => []
  | y :: l' => if decide (x = y) then l' else y :: list_remove_first x l'
  end.

(** ** Python arithmetic on [float] and [int]

    [int_float z] is the double nearest to [z] (ties to even); Python
    refuses the conversion with [OverflowError] from [2^1024 - 2^970] on,
    where the nearest double would be infinite.  [x / n] and [x * n] with
    a float [x] and an int [n] convert [n] first; a division by zero, of
    either kind, is a [ZeroDivisionError]; every other float operation
    rounds silently, to infinity if need be. *)

Definition int_float (z : Z) : float :=
  SF2Prim (binary_normalize prec emax z 0 false).

Definition int_float_limit : Z := 2 ^ 1024 - 2 ^ 970.

Definition float_of_int (z : Z) : exn + float :=
  if (int_float_limit <=? Z.abs z)%Z then inl OverflowError
  else inr (int_float z).

(** [x / y], both floats *)
Definition float_truediv (x y : float) : exn + float :=
  if (y =? 0)%float then inl ZeroDivisionError else inr (x / y)%float.

(** [x / n], a float by an int *)
Definition float_truediv_int (x : float) (n : Z) : exn + float :=
  if (n =? 0)%Z then inl ZeroDivisionError
  else match float_of_int n with
       | inl e => inl e
       | inr y => inr (x / y)%float
       end.

(** [x * n], a float by an int *)
Definition float_mul_int (x : float) (n : Z) : exn + float :=
  match float_of_int n with
  | inl e => inl e
  | inr y => inr (x * y)%float
  end.

(** ** class Hospital *)

Definition Hospital_init (name : string) (loc : location) (cap : Z)
    (hospital_type : string) : Hospital :=
  {| hosp_name := name; hosp_location := loc; capacity := cap;
     available_beds := cap; hosp_type := hospital_type;
     referrals_received := [] |}.

Definition admit_patient (self patient : ref) : M bool :=
  do h <- hospital_get self;
  if (0 <? available_beds h)%Z then
    hospital_set self (fun h => set_available_beds (available_beds h - 1)%Z h);;
    hospital_set self (fun h => set_referrals_received (referrals_received h ++ [patient]) h);;
    patient_set patient (set_pat_status "admitted");;
    ret true
  else ret false.

Definition discharge_patient (self patient : ref) : M bool :=
  do h <- hospital_get self;
  if bool_decide (patient ∈ referrals_received h) then
    hospital_set self (fun h => set_referrals_received
                                  (list_remove_first patient (referrals_received h)) h);;
    hospital_set self (fun h => set_available_beds (available_beds h + 1)%Z h);;
    patient_set patient (set_pat_status "discharged");;
    ret true
  else ret false.

(** ** class Patient *)

Definition Patient_init (name cond : string) (sev : Z)
    (vitals : option (gmap string pyval)) : Patient :=
  {| pat_name := name; condition := cond; severity := sev;
     vital_signs := default ∅ vitals;       (* vital_signs or {} *)
     pat_status := "waiting"; transfer_completion_time := None |}.

(** ** class Ambulance *)

Definition Ambulance_init (id : string) (loc : location) : Ambulance :=
  {| amb_id := id; amb_location := loc; amb_status := "available";
     current_patient := None; destination := None; route := []; eta := None |}.

Definition dispatch (self patient dest : ref) : M unit :=
  ambulance_set self (set_amb_status "dispatched");;
  ambulance_set self (set_current_patient (Some patient));;
  ambulance_set self (set_destination (Some dest)).

Section Core.

(** The wall clock: [wall_clock k] is what the [k]-th call of
    [datetime.datetime.now()] returns. *)
Variable wall_clock : nat → datetime.

(** The generator: [rng k] is what the [k]-th call of [random.random()]
    returns. *)
Variable rng : nat → float.

(** [geopy.distance.geodesic(loc1, loc2).km], which raises on coordinates
    it does not accept. *)
Variable geodesic_km : location → location → exn + float.

(** [t + datetime.timedelta(minutes=m)], which raises when [m] or the sum
    is out of range. *)
Variable plus_minutes : datetime → float → exn + datetime.

Definition now : M datetime :=
  fun w => inr (wall_clock (clock_reads w), tick_clock w).

Definition random_random : M float :=
  fun w => inr (rng (rng_draws w), tick_rng w).

(** [random.uniform(a, b)] is [a + (b - a) * random()]. *)
Definition random_uniform (a b : float) : M float :=
  do u <- random_random; ret (a + (b - a) * u)%float.

Definition complete_transfer (self : ref) : M unit :=
  ambulance_set self (set_amb_status "available");;
  do a <- ambulance_get self;
  match current_patient a with
  | Some p =>
      do t <- now;
      patient_set p (set_transfer_completion_time (Some t))
  | None => ret tt
  end;;
  ambulance_set self (set_current_patient None);;
  ambulance_set self (set_destination None).

(** ** class ReferralSystem *)

Definition add_hospital (h : ref) : M unit :=
  modify (with_hospitals (fun l => l ++ [h])).

Definition add_ambulance (a : ref) : M unit :=
  modify (with_ambulances (fun l => l ++ [a])).

(** [next((amb for amb in l if amb.status == "available"), None)] *)
Fixpoint first_available (l : list ref) : M (option ref) :=
  match l with
  | [] => ret None
  | r :: l' =>
      do amb <- ambulance_get r;
      if String.eqb (amb_status amb) "available" then ret (Some r)
      else first_available l'
  end.

Definition find_available_ambulance : M (option ref) :=
  do w <- get; first_available (ambulances w).

Definition create_referral (patient from_hospital to_hospital : ref)
    (ambulance : option ref) : M (option Referral) :=
  do amb <- match ambulance with
            | Some a => ret (Some a)
            | None => find_available_ambulance
            end;
  match amb with
  | None => ret None
  | Some amb =>
      do w <- get;
      do t <- now;
      let referral :=
        {| ref_id := Z.of_nat (length (referral_requests w)) + 1;
           ref_patient := patient;
           ref_from_hospital := from_hospital;
           ref_to_hospital := to_hospital;
           ref_ambulance := amb;
           ref_timestamp := t;
           ref_status := "in_transit" |} in
      dispatch amb patient to_hospital;;
      modify (with_referral_requests (fun l => l ++ [referral]));;
      ret (Some referral)
  end.

(** Position of the first record with the given id:
    [next((r for r in l if r["id"] == referral_id), None)]. *)
Fixpoint find_referral (referral_id : Z) (l : list Referral) : option nat :=
  match l with
  | [] => None
  | r :: l' => if (ref_id r =? referral_id)%Z then Some 0
               else S <$> find_referral referral_id l'
  end.

Definition referral_at (i : nat) : M Referral :=
  fun w => match referral_requests w !! i with
           | Some r => inr (r, w)
           | None => inl InvalidReference
           end.

Definition complete_referral (referral_id : Z) : M (option Referral) :=
  do w <- get;
  match find_referral referral_id (referral_requests w) with
  | None => ret None
  | Some i =>
      do referral <- referral_at i;
      complete_transfer (ref_ambulance referral);;
      modify (with_referral_requests (alter (set_ref_status "completed") i));;
      do completion_time <- now;
      do referral <- referral_at i;
      do p <- patient_get (ref_patient referral);
      do fh <- hospital_get (ref_from_hospital referral);
      do th <- hospital_get (ref_to_hospital referral);
      do a <- ambulance_get (ref_ambulance referral);
      let new_entry :=
        {| row_Patient := pat_name p;
           row_From_Hospital := hosp_name fh;
           row_To_Hospital := hosp_name th;
           row_Ambulance := amb_id a;
           row_Status := ref_status referral;
           row_Request_Time := ref_timestamp referral;
           row_Completion_Time := completion_time |} in
      modify (with_referral_history (fun l => l ++ [new_entry]));;
      ret (Some referral)
  end.

(** ** class AmbulanceTracker *)

Definition calculate_distance (loc1 loc2 : location) : M float :=
  lift (geodesic_km loc1 loc2).

(** Coordinates are floats and [num_points] is an int: each division and
    each product converts its int operand, in the order Python evaluates
    the line. *)
Definition generate_route (start end_ : location) (num_points : Z) : M (list location) :=
  do lat_diff <- lift (float_truediv_int (fst end_ - fst start) (num_points + 1));
  do lon_diff <- lift (float_truediv_int (snd end_ - snd start) (num_points + 1));
  for_each (py_range 1 (num_points + 1))
    (fun i pts =>
       do lat_step <- lift (float_mul_int lat_diff i);
       do j_lat <- random_uniform (-0.0005) 0.0005;
       do lon_step <- lift (float_mul_int lon_diff i);
       do j_lon <- random_uniform (-0.0005) 0.0005;
       ret (pts ++ [ (fst start + lat_step + j_lat,
                      snd start + lon_step + j_lon)%float ]))
    [].

(** [speed_kmh] is taken as a float (an int argument, like the default 60,
    is converted by the division); the literal 60 of the source is the
    float 60.0. *)
Definition simulate_movement (ambulance : ref) (dest_loc : location)
    (speed_kmh : float) : M (float * option datetime) :=
  do a <- ambulance_get ambulance;
  do distance_km <- calculate_distance (amb_location a) dest_loc;
  do per_hour <- lift (float_truediv distance_km speed_kmh);
  let minutes := (per_hour * 60)%float in
  do t <- now;
  do arrival <- lift (plus_minutes t minutes);
  ambulance_set ambulance (set_eta (Some arrival));;
  do a <- ambulance_get ambulance;
  do r <- generate_route (amb_location a) dest_loc 6;
  ambulance_set ambulance (set_route r);;
  ambulance_set ambulance (set_amb_status "en_route");;
  do a <- ambulance_get ambulance;
  ret (distance_km, eta a).

End Core.

(** ** Specification vocabulary

    *** Hospital: bed accounting *)

Definition hospital_inv (h : Hospital) : Prop :=
  (0 ≤ available_beds h ≤ capacity h)%Z ∧
  (available_beds h + Z.of_nat (length (referrals_received h)) = capacity h)%Z.

(** What a successful [admit_patient] / [discharge_patient] leaves in the
    hospital object. *)
Definition admitted (patient : ref) (h : Hospital) : Hospital :=
  set_referrals_received (referrals_received h ++ [patient])
    (set_available_beds (available_beds h - 1)%Z h).
Definition discharged (patient : ref) (h : Hospital) : Hospital :=
  set_available_beds (available_beds h + 1)%Z
    (set_referrals_received (list_remove_first patient (referrals_received h)) h).

(** A sequence of calls made on the hospitals of a session. *)
Inductive hospital_call :=
  | AdmitPatient (self patient : ref)
  | DischargePatient (self patient : ref).

Definition call (c : hospital_call) : M bool :=
  match c with
  | AdmitPatient self patient => admit_patient self patient
  | DischargePatient self patient => discharge_patient self patient
  end.

Fixpoint calls (cs : list hospital_call) : M (list bool) :=
  match cs with
  | [] => ret []
  | c :: cs' => do b <- call c; do bs <- calls cs'; ret (b :: bs)
  end.

(** The call names objects that exist. *)
Definition call_live (w : World) (c : hospital_call) : Prop :=
  match c with
  | AdmitPatient self patient | DischargePatient self patient =>
      self ∈ dom (hospital_objs w) ∧ patient ∈ dom (patient_objs w)
  end.

(** *** Ambulances *)

(** What [dispatch] and [complete_transfer] leave in the ambulance object. *)
Definition dispatched (patient dest : ref) (a : Ambulance) : Ambulance :=
  set_destination (Some dest)
    (set_current_patient (Some patient) (set_amb_status "dispatched" a)).
Definition released (a : Ambulance) : Ambulance :=
  set_destination None (set_current_patient None (set_amb_status "available" a)).

(** [current_patient] is set iff [status != "available"]. *)
Definition ambulance_inv (a : Ambulance) : Prop :=
  is_Some (current_patient a) ↔ amb_status a ≠ "available".
Definition fleet_inv (w : World) : Prop :=
  ∀ r a, ambulance_objs w !! r = Some a → ambulance_inv a.

(** Every registered ambulance is an object of the store. *)
Definition fleet_live (w : World) : Prop :=
  Forall (λ r, r ∈ dom (ambulance_objs w)) (ambulances w).

(** *** Referral ledger *)

(** The dictionary [create_referral] builds in world [w] at clock reading [t]. *)
Definition new_referral (w : World) (t : datetime)
    (patient from_hospital to_hospital amb : ref) : Referral :=
  {| ref_id := Z.of_nat (length (referral_requests w)) + 1;
     ref_patient := patient;
     ref_from_hospital := from_hospital;
     ref_to_hospital := to_hospital;
     ref_ambulance := amb;
     ref_timestamp := t;
     ref_status := "in_transit" |}.

(** The world after a successful [create_referral] that chose ambulance
    [amb], whose object was [a]. *)
Definition referred_world (r : Referral) (a : Ambulance) (w : World) : World :=
  with_referral_requests (λ l, l ++ [r])
    (with_ambulance_objs
       (insert (ref_ambulance r) (dispatched (ref_patient r) (ref_to_hospital r) a))
       (tick_clock w)).

(** The effect of the guarded statement of [complete_transfer] on an
    ambulance whose object is [a]: the patient it carries, if any, is
    stamped with a fresh clock reading. *)
Definition stamp_carried (wall_clock : nat → datetime) (a : Ambulance) (w : World) : World :=
  match current_patient a with
  | Some q =>
      match patient_objs w !! q with
      | Some pat =>
          with_patient_objs
            (insert q (set_transfer_completion_time
                         (Some (wall_clock (clock_reads w))) pat))
            (tick_clock w)
      | None => w
      end
  | None => w
  end.

Definition history_row (r : Referral) (pat : Patient) (fh th : Hospital)
    (a : Ambulance) (completion_time : datetime) : HistoryRow :=
  {| row_Patient := pat_name pat;
     row_From_Hospital := hosp_name fh;
     row_To_Hospital := hosp_name th;
     row_Ambulance := amb_id a;
     row_Status := "completed";
     row_Request_Time := ref_timestamp r;
     row_Completion_Time := completion_time |}.

(** The world after a successful [complete_referral] on the record [r]
    found at position [i], bound to the ambulance object [a]. *)
Definition completed_world (wall_clock : nat → datetime) (i : nat) (r : Referral)
    (a : Ambulance) (row : HistoryRow) (w : World) : World :=
  with_referral_history (λ l, l ++ [row])
    (tick_clock
       (with_referral_requests (alter (set_ref_status "completed") i)
          (with_ambulance_objs (insert (ref_ambulance r) (released a))
             (stamp_carried wall_clock a w)))).

(** Every object a referral record names exists, and so does the patient
    its ambulance carries. *)
Definition referral_live (w : World) (r : Referral) : Prop :=
  ref_patient r ∈ dom (patient_objs w) ∧
  ref_from_hospital r ∈ dom (hospital_objs w) ∧
  ref_to_hospital r ∈ dom (hospital_objs w) ∧
  ∃ a, ambulance_objs w !! ref_ambulance r = Some a ∧
       ∀ q, current_patient a = Some q → q ∈ dom (patient_objs w).

(** Every record of the ledger was time-stamped by an earlier reading of
    the clock. *)
Definition ledger_timed (wall_clock : nat → datetime) (w : World) : Prop :=
  ∀ r, r ∈ referral_requests w →
       ∃ k : nat, (k < clock_reads w)%nat ∧ ref_timestamp r = wall_clock k.

(** No row of the history completes before it was requested. *)
Definition history_ordered (w : World) : Prop :=
  ∀ row, row ∈ referral_history w →
         (row_Request_Time row <= row_Completion_Time row)%Q.

(** The wall clock is never set back. *)
Definition clock_monotone (wall_clock : nat → datetime) : Prop :=
  ∀ i j : nat, (i ≤ j)%nat → (wall_clock i <= wall_clock j)%Q.

(** *** Movement simulator *)

Definition with_rng_draws (n : nat) (w : World) : World :=
  mkWorld (hospital_objs w) (patient_objs w) (ambulance_objs w)
          (hospitals w) (ambulances w) (referral_requests w)
          (referral_history w) (clock_reads w) n.

(** [random.uniform(-0.0005, 0.0005)] as a function of the draw [u]. *)
Definition jitter (u : float) : float := (-0.0005 + (0.0005 - -0.0005) * u)%float.

(** The point appended at iteration [i] of the loop of [generate_route]
    when the generator had been called [d] times before the loop. *)
Definition route_point (rng : nat → float) (start end_ : location) (num_points : Z)
    (d : nat) (i : Z) : location :=
  ((fst start + (fst end_ - fst start) / int_float (num_points + 1) * int_float i
      + jitter (rng (d + 2 * Z.to_nat (i - 1)%Z)%nat))%float,
   (snd start + (snd end_ - snd start) / int_float (num_points + 1) * int_float i
      + jitter (rng (d + 2 * Z.to_nat (i - 1)%Z + 1)%nat))%float).

(** What [simulate_movement] leaves in the ambulance object. *)
Definition moved (e : datetime) (pts : list location) (a : Ambulance) : Ambulance :=
  set_amb_status "en_route" (set_route pts (set_eta (Some e) a)).

(** *** Sessions: sequences of core operations *)

Inductive core_op :=
  | CreateReferral (patient from_hospital to_hospital : ref) (ambulance : option ref)
  | CompleteReferral (referral_id : Z)
  | SimulateMovement (ambulance : ref) (dest_loc : location) (speed_kmh : float).

Section Sessions.
Variable wall_clock : nat → datetime.
Variable rng : nat → float.
Variable geodesic_km : location → location → exn + float.
Variable plus_minutes : datetime → float → exn + datetime.

Definition run_op (o : core_op) : M unit :=
  match o with
  | CreateReferral patient from_hospital to_hospital ambulance =>
      create_referral wall_clock patient from_hospital to_hospital ambulance;; ret tt
  | CompleteReferral referral_id =>
      complete_referral wall_clock referral_id;; ret tt
  | SimulateMovement ambulance dest_loc speed_kmh =>
      simulate_movement wall_clock rng geodesic_km plus_minutes
        ambulance dest_loc speed_kmh;; ret tt
  end.

(** [simulate_movement] is asked to move an ambulance that is out on a
    referral, not one that is "available". *)
Definition on_the_road (w : World) (o : core_op) : Prop :=
  match o with
  | SimulateMovement ambulance _ _ =>
      ∀ a, ambulance_objs w !! ambulance = Some a → amb_status a ≠ "available"
  | _ => True
  end.

(** [reaches w w']: some sequence of core operations, each returning
    normally, leads from [w] to [w']. *)
Inductive reaches : World → World → Prop :=
  | reaches_here w : reaches w w
  | reaches_next w o w1 w2 :
      on_the_road w o → run_op o w = inr (tt, w1) → reaches w1 w2 → reaches w w2.

(** [runs w w']: some sequence of core operations, whatever they are
    applied to, each returning normally, leads from [w] to [w']. *)
Inductive runs : World → World → Prop :=
  | runs_here w : runs w w
  | runs_next w o w1 w2 :
      run_op o w = inr (tt, w1) → runs w1 w2 → runs w w2.

End Sessions.

(** *** A small session

    Two hospitals, one waiting patient and one free ambulance, as the
    application would seed them. *)

Definition kisumu : location := (-0.1, 34.75)%float.
Definition siaya : location := (0.06, 34.29)%float.

Definition session0 : World :=
  {| hospital_objs :=
       <[0 := Hospital_init "Hospital A" kisumu 5 "general"]>
         (<[1 := Hospital_init "Hospital B" siaya 2 "general"]> ∅);
     patient_objs := <[0 := Patient_init "John Otieno" "trauma" 4 None]> ∅;
     ambulance_objs := <[0 := Ambulance_init "AMB1" kisumu]> ∅;
     hospitals := [0; 1];
     ambulances := [0];
     referral_requests := [];
     referral_history := [];
     clock_reads := 0;
     rng_draws := 0 |}.

(** Concrete stand-ins for the external world: a clock that advances one
    minute per reading, a generator that always returns 0.5, a flat 30 km
    between any two places, and a [datetime] arithmetic that adds the exact
    value of a finite number of minutes (as the library does for a whole
    number of microseconds in range, such as the 30 minutes used below). *)
Definition clock_minutes : nat → datetime := λ k, inject_Z (Z.of_nat k).
Definition rng_half : nat → float := λ _, 0.5%float.
Definition geodesic_30 : location → location → exn + float := λ _ _, inr 30%float.

Definition float_value (x : float) : option Q :=
  match Prim2SF x with
  | S754_zero _ => Some 0%Q
  | S754_finite sign m e =>
      Some (inject_Z (if sign then Z.neg m else Z.pos m) * Qpower 2 e)%Q
  | S754_infinity _ | S754_nan => None
  end.

Definition plus_minutes_exact : datetime → float → exn + datetime :=
  λ t m, match float_value m with
         | Some q => inr (Qred (t + q))
         | None => inl OverflowError
         end.

(** [session0] after [create_referral(P, A, B)]: ambulance AMB1 is out. *)
Definition session1 : World :=
  match create_referral clock_minutes 0 0 1 None session0 with
  | inr (_, w) => w
  | inl _ => session0
  end.

(** [session1] after [simulate_movement(AMB1, B.location)]. *)
Definition session2 : World :=
  match simulate_movement clock_minutes rng_half geodesic_30 plus_minutes_exact
          0 siaya 60 session1 with
  | inr (_, w) => w
  | inl _ => session1
  end.

(** The objects of the small session, as [session1] has them. *)
Definition hospital_A : Hospital := Hospital_init "Hospital A" kisumu 5 "general".
Definition hospital_B : Hospital := Hospital_init "Hospital B" siaya 2 "general".
Definition patient_P : Patient := Patient_init "John Otieno" "trauma" 4 None.
Definition referral_1 : Referral := new_referral session0 (clock_minutes 0) 0 0 1 0.
Definition amb1_out : Ambulance := dispatched 0 1 (Ambulance_init "AMB1" kisumu).

(** [session2] after [complete_referral(1)]. *)
Definition session3 : World :=
  match complete_referral clock_minutes 1 session2 with
  | inr (_, w) => w
  | inl _ => session2
  end.

(** *** Hospital calls, by their parts *)

Definition call_hospital (c : hospital_call) : ref :=
  match c with AdmitPatient self _ | DischargePatient self _ => self end.
Definition call_patient (c : hospital_call) : ref :=
  match c with AdmitPatient _ patient | DischargePatient _ patient => patient end.
(** The status a successful call writes into the patient. *)
Definition call_status (c : hospital_call) : string :=
  match c with AdmitPatient _ _ => "admitted" | DischargePatient _ _ => "discharged" end.

(** *** Ledger bookkeeping *)

(** Record number [i] (from 0) carries the id [i + 1]. *)
Definition ledger_ids (w : World) : Prop :=
  ∀ i r, referral_requests w !! i = Some r → ref_id r = (Z.of_nat i + 1)%Z.

(** [r'] is the record [r], possibly with another status. *)
Definition same_referral (r r' : Referral) : Prop :=
  ref_id r' = ref_id r ∧ ref_patient r' = ref_patient r ∧
  ref_from_hospital r' = ref_from_hospital r ∧
  ref_to_hospital r' = ref_to_hospital r ∧
  ref_ambulance r' = ref_ambulance r ∧ ref_timestamp r' = ref_timestamp r.

(** An ambulance at rest, as [Ambulance.__init__] and [complete_transfer]
    leave it. *)
Definition at_rest (a : Ambulance) : Prop :=
  amb_status a = "available" ∧ current_patient a = None ∧ destination a = None.

(** *** What a session keeps *)

(** [w'] has the records of [w] at their positions, each with the same
    content and a status that is still "completed" if it was. *)
Definition ledger_kept (w w' : World) : Prop :=
  ∀ i r, referral_requests w !! i = Some r →
    ∃ r', referral_requests w' !! i = Some r' ∧ same_referral r r' ∧
          (ref_status r = "completed" → ref_status r' = "completed").

(** [w'] has the hospitals of [w] unchanged, its ambulances with their id
    and location, and its patients with everything but the completion
    time. *)
Definition entities_kept (w w' : World) : Prop :=
  hospital_objs w' = hospital_objs w ∧
  (∀ k a, ambulance_objs w !! k = Some a →
     ∃ a', ambulance_objs w' !! k = Some a' ∧
           amb_id a' = amb_id a ∧ amb_location a' = amb_location a) ∧
  (∀ k p, patient_objs w !! k = Some p →
     ∃ p', patient_objs w' !! k = Some p' ∧
           pat_name p' = pat_name p ∧ condition p' = condition p ∧
           severity p' = severity p ∧ vital_signs p' = vital_signs p ∧
           pat_status p' = pat_status p).

(** ** class CommunicationSystem

    The message log is an object of its own, beside the referral system:
    its one field [messages] is passed to the methods and handed back; the
    clock is the one of the world. *)

Record Message := mkMessage {
  msg_id : Z;
  msg_sender : string;
  msg_recipient : string;
  msg_type : string;
  msg_content : string;
  msg_urgent : bool;
  msg_timestamp : datetime;
  msg_read : bool
}.

Section Communication.
Variable wall_clock : nat → datetime.

Definition send_message (messages : list Message)
    (sender recipient message_type content : string) (urgent : bool)
    : M (Message * list Message) :=
  do t <- now wall_clock;
  let msg :=
    {| msg_id := Z.of_nat (length messages) + 1;
       msg_sender := sender;
       msg_recipient := recipient;
       msg_type := message_type;
       msg_content := content;
       msg_urgent := urgent;
       msg_timestamp := t;
       msg_read := false |} in
  ret (msg, messages ++ [msg]).

(** One request to send: sender, recipient, type, content, urgency. *)
Record Outgoing := mkOutgoing {
  out_sender : string;
  out_recipient : string;
  out_type : string;
  out_content : string;
  out_urgent : bool
}.

(** [send_message] called once per request, in order. *)
Fixpoint send_messages (messages : list Message) (outs : list Outgoing)
    : M (list Message) :=
  match outs with
  | [] => ret messages
  | o :: outs' =>
      do res <- send_message messages (out_sender o) (out_recipient o)
                  (out_type o) (out_content o) (out_urgent o);
      send_messages (snd res) outs'
  end.

End Communication.

(** [[m for m in self.messages if m["recipient"] == recipient]] *)
Definition get_messages_for (messages : list Message) (recipient : string)
    : list Message :=
  List.filter (λ m, String.eqb (msg_recipient m) recipient) messages.

(** The message the [k]-th clock reading makes of a request appended to a
    log of [n] messages. *)
Definition message_of (wall_clock : nat → datetime) (n k : nat) (o : Outgoing)
    : Message :=
  {| msg_id := Z.of_nat n + 1;
     msg_sender := out_sender o;
     msg_recipient := out_recipient o;
     msg_type := out_type o;
     msg_content := out_content o;
     msg_urgent := out_urgent o;
     msg_timestamp := wall_clock k;
     msg_read := false |}.

(** Message number [i] (from 0) carries the id [i + 1]. *)
Definition log_ids (messages : list Message) : Prop :=
  ∀ i m, messages !! i = Some m → msg_id m = (Z.of_nat i + 1)%Z.

Definition demo_outs : list Outgoing :=
  [ mkOutgoing "Dr. Odhiambo" "AMB1" "urgent" "Trauma patient ready" true;
    mkOutgoing "AMB1" "Dr. Odhiambo" "general" "On our way" false;
    mkOutgoing "Nurse Atieno" "AMB1" "alert" "Bring oxygen" true ].

(** Another session from [session0]: [simulate_movement] is asked to move
    the free ambulance AMB1, which is then supplied to [create_referral],
    and the referral is completed. *)
Definition detour1 : World :=
  match simulate_movement clock_minutes rng_half geodesic_30 plus_minutes_exact
          0 siaya 60 session0 with
  | inr (_, w) => w
  | inl _ => session0
  end.

Definition detour2 : World :=
  match create_referral clock_minutes 0 0 1 (Some 0) detour1 with
  | inr (_, w) => w
  | inl _ => detour1
  end.

Definition detour3 : World :=
  match complete_referral clock_minutes 1 detour2 with
  | inr (_, w) => w
  | inl _ => detour2
  end.


(** * Properties *)

(** ** Evaluating attribute access and assignment *)

Section Store.
Context {A : Type} (store : World → gmap ref A)
        (with_store : (gmap ref A → gmap ref A) → World → World).

Lemma deref_Some w r o : store w !! r = Some o → deref store r w = inr (o, w).
Proof. intros H. unfold deref. by rewrite H. Qed.

Lemma deref_inr w r o w' : deref store r w = inr (o, w') → store w !! r = Some o ∧ w' = w.
Proof. unfold deref. destruct (store w !! r); naive_solver. Qed.

Lemma assign_Some w r o f :
  store w !! r = Some o →
  assign store with_store r f w = inr (tt, with_store (insert r (f o)) w).
Proof. intros H. unfold assign. by rewrite H. Qed.

Lemma assign_inr w r f u w' :
  assign store with_store r f w = inr (u, w') →
  ∃ o, store w !! r = Some o ∧ w' = with_store (insert r (f o)) w.
Proof.
  unfold assign. destruct (store w !! r) as [o|]; [|done].
  intros [= _ <-]. by exists o.
Qed.

End Store.

Lemma bind_inr {A B} (m : M A) (k : A → M B) w a w1 :
  m w = inr (a, w1) → bind m k w = k a w1.
Proof. intros H. unfold bind. by rewrite H. Qed.

Lemma bind_inv {A B} (m : M A) (k : A → M B) w b w2 :
  bind m k w = inr (b, w2) → ∃ a w1, m w = inr (a, w1) ∧ k a w1 = inr (b, w2).
Proof. unfold bind. destruct (m w) as [e|[a w1]]; [done|]. eauto. Qed.

Lemma list_remove_first_length x l :
  x ∈ l → S (length (list_remove_first x l)) = length l.
Proof.
  induction l as [|y l IH]; simpl.
  - intros H. by apply elem_of_nil in H.
  - intros H. destruct (decide (x = y)) as [->|Hne]; [done|].
    apply elem_of_cons in H as [?|H]; [done|]. simpl. by rewrite IH.
Qed.

(** ** Hospital: bed accounting *)

Lemma admit_patient_beds w self patient h p :
  hospital_objs w !! self = Some h →
  patient_objs w !! patient = Some p →
  (0 < available_beds h)%Z →
  admit_patient self patient w =
    inr (true, with_patient_objs (insert patient (set_pat_status "admitted" p))
                 (with_hospital_objs (insert self (admitted patient h)) w)).
Proof.
  intros Hh Hp Hbeds. unfold admit_patient, hospital_get, hospital_set, patient_set.
  rewrite (bind_inr _ _ _ _ _ (deref_Some _ _ _ _ Hh)).
  apply Z.ltb_lt in Hbeds. rewrite Hbeds.
  erewrite bind_inr; [|by apply assign_Some].
  erewrite bind_inr; [|apply assign_Some; simpl; apply lookup_insert_eq].
  erewrite bind_inr; [|by apply assign_Some].
  unfold ret, with_hospital_objs, with_patient_objs, admitted; simpl.
  by rewrite insert_insert_eq.
Qed.

Lemma admit_patient_full w self patient h :
  hospital_objs w !! self = Some h →
  (available_beds h ≤ 0)%Z →
  admit_patient self patient w = inr (false, w).
Proof.
  intros Hh Hbeds. unfold admit_patient, hospital_get.
  rewrite (bind_inr _ _ _ _ _ (deref_Some _ _ _ _ Hh)).
  apply Z.ltb_ge in Hbeds. by rewrite Hbeds.
Qed.

Lemma discharge_patient_present w self patient h p :
  hospital_objs w !! self = Some h →
  patient_objs w !! patient = Some p →
  patient ∈ referrals_received h →
  discharge_patient self patient w =
    inr (true, with_patient_objs (insert patient (set_pat_status "discharged" p))
                 (with_hospital_objs (insert self (discharged patient h)) w)).
Proof.
  intros Hh Hp Hin. unfold discharge_patient, hospital_get, hospital_set, patient_set.
  rewrite (bind_inr _ _ _ _ _ (deref_Some _ _ _ _ Hh)).
  rewrite bool_decide_eq_true_2 by done.
  erewrite bind_inr; [|by apply assign_Some].
  erewrite bind_inr; [|apply assign_Some; simpl; apply lookup_insert_eq].
  erewrite bind_inr; [|by apply assign_Some].
  unfold ret, with_hospital_objs, with_patient_objs, discharged; simpl.
  by rewrite insert_insert_eq.
Qed.

Lemma discharge_patient_absent w self patient h :
  hospital_objs w !! self = Some h →
  patient ∉ referrals_received h →
  discharge_patient self patient w = inr (false, w).
Proof.
  intros Hh Hin. unfold discharge_patient, hospital_get.
  rewrite (bind_inr _ _ _ _ _ (deref_Some _ _ _ _ Hh)).
  by rewrite bool_decide_eq_false_2.
Qed.

Lemma hospital_inv_init name loc cap ty :
  (0 ≤ cap)%Z → hospital_inv (Hospital_init name loc cap ty).
Proof. intros H. unfold hospital_inv; simpl. lia. Qed.

Lemma hospital_inv_admitted patient h :
  (0 < available_beds h)%Z → hospital_inv h → hospital_inv (admitted patient h).
Proof.
  unfold hospital_inv, admitted; simpl. rewrite length_app; simpl. lia.
Qed.

Lemma hospital_inv_discharged patient h :
  patient ∈ referrals_received h → hospital_inv h → hospital_inv (discharged patient h).
Proof.
  intros Hin. apply list_remove_first_length in Hin.
  unfold hospital_inv, discharged; simpl. lia.
Qed.

Lemma call_step w c self h :
  call_live w c →
  hospital_objs w !! self = Some h →
  hospital_inv h →
  ∃ b w' h', call c w = inr (b, w') ∧
    hospital_objs w' !! self = Some h' ∧
    capacity h' = capacity h ∧ hospital_inv h' ∧
    dom (hospital_objs w') = dom (hospital_objs w) ∧
    dom (patient_objs w') = dom (patient_objs w).
Proof.
  intros Hlive Hself Hinv.
  destruct c as [s p|s p]; simpl in *; destruct Hlive as [Hs Hp];
    apply elem_of_dom in Hs as [hs Hs]; pose proof Hp as Hp';
    apply elem_of_dom in Hp' as [pp Hpp].
  - destruct (Z_lt_le_dec 0 (available_beds hs)) as [Hb|Hb].
    + rewrite (admit_patient_beds _ _ _ _ _ Hs Hpp Hb). simpl.
      destruct (decide (s = self)) as [->|Hne].
      * assert (hs = h) as -> by congruence.
        exists true; eexists; exists (admitted p h).
        split; [done|]. simpl. rewrite lookup_insert_eq.
        repeat split; try done; try (by apply hospital_inv_admitted).
        -- apply dom_insert_lookup_L. eauto.
        -- apply dom_insert_lookup_L. eauto.
      * exists true; eexists; exists h.
        split; [done|]. simpl. rewrite lookup_insert_ne by done.
        repeat split; try done; try apply Hinv.
        -- apply dom_insert_lookup_L. eauto.
        -- apply dom_insert_lookup_L. eauto.
    + rewrite (admit_patient_full _ _ _ _ Hs Hb). exists false, w, h. naive_solver.
  - destruct (decide (p ∈ referrals_received hs)) as [Hin|Hin].
    + rewrite (discharge_patient_present _ _ _ _ _ Hs Hpp Hin). simpl.
      destruct (decide (s = self)) as [->|Hne].
      * assert (hs = h) as -> by congruence.
        exists true; eexists; exists (discharged p h).
        split; [done|]. simpl. rewrite lookup_insert_eq.
        repeat split; try done; try (by apply hospital_inv_discharged).
        -- apply dom_insert_lookup_L. eauto.
        -- apply dom_insert_lookup_L. eauto.
      * exists true; eexists; exists h.
        split; [done|]. simpl. rewrite lookup_insert_ne by done.
        repeat split; try done; try apply Hinv.
        -- apply dom_insert_lookup_L. eauto.
        -- apply dom_insert_lookup_L. eauto.
    + rewrite (discharge_patient_absent _ _ _ _ Hs Hin). exists false, w, h. naive_solver.
Qed.

Lemma calls_run w cs self h :
  Forall (call_live w) cs →
  hospital_objs w !! self = Some h →
  hospital_inv h →
  ∃ bs w' h', calls cs w = inr (bs, w') ∧
    hospital_objs w' !! self = Some h' ∧
    capacity h' = capacity h ∧ hospital_inv h' ∧
    dom (hospital_objs w') = dom (hospital_objs w) ∧
    dom (patient_objs w') = dom (patient_objs w).
Proof.
  revert w h. induction cs as [|c cs IH]; intros w h Hlive Hself Hinv.
  - exists [], w, h. naive_solver.
  - apply Forall_cons in Hlive as [Hc Hcs].
    destruct (call_step w c self h Hc Hself Hinv)
      as (b & w1 & h1 & Hrun & Hself1 & Hcap1 & Hinv1 & Hdh & Hdp).
    assert (Forall (call_live w1) cs) as Hcs1.
    { eapply Forall_impl; [exact Hcs|]. intros [s p|s p]; simpl;
        rewrite Hdh, Hdp; done. }
    destruct (IH w1 h1 Hcs1 Hself1 Hinv1)
      as (bs & w2 & h2 & Hrun2 & Hself2 & Hcap2 & Hinv2 & Hdh2 & Hdp2).
    exists (b :: bs), w2, h2. simpl.
    rewrite (bind_inr _ _ _ _ _ Hrun), (bind_inr _ _ _ _ _ Hrun2).
    repeat split; try done; try apply Hinv2; congruence.
Qed.

(** C6: a hospital built with a capacity [cap >= 0] starts with
    [0 <= available_beds <= capacity] and
    [available_beds + len(referrals_received) == capacity]; every sequence
    of [admit_patient] / [discharge_patient] calls on existing objects runs
    without exception and leaves both facts true; from any state so reached,
    one more [admit_patient] either succeeds and lowers [available_beds] by
    exactly 1 or fails and changes nothing, one more [discharge_patient]
    either succeeds and raises it by exactly 1 or fails and changes nothing,
    and the bounds still hold afterwards. *)
Theorem hospital_beds_within_capacity
    (name ty : string) (loc : location) (cap : Z) (w : World) (self : ref)
    (cs : list hospital_call) :
  (0 ≤ cap)%Z →
  hospital_objs w !! self = Some (Hospital_init name loc cap ty) →
  Forall (call_live w) cs →
  hospital_inv (Hospital_init name loc cap ty) ∧
  ∃ bs w' h, calls cs w = inr (bs, w') ∧
    hospital_objs w' !! self = Some h ∧ capacity h = cap ∧ hospital_inv h ∧
    ∀ patient, patient ∈ dom (patient_objs w) →
      (∃ b w'' h', admit_patient self patient w' = inr (b, w'') ∧
         b = (0 <? available_beds h)%Z ∧
         hospital_objs w'' !! self = Some h' ∧
         capacity h' = cap ∧ hospital_inv h' ∧
         if b then available_beds h' = (available_beds h - 1)%Z else w'' = w') ∧
      (∃ b w'' h', discharge_patient self patient w' = inr (b, w'') ∧
         b = bool_decide (patient ∈ referrals_received h) ∧
         hospital_objs w'' !! self = Some h' ∧
         capacity h' = cap ∧ hospital_inv h' ∧
         if b then available_beds h' = (available_beds h + 1)%Z else w'' = w').
Proof.
  intros Hcap Hself Hlive.
  pose proof (hospital_inv_init name loc cap ty Hcap) as Hinit.
  split; [done|].
  destruct (calls_run w cs self _ Hlive Hself Hinit)
    as (bs & w' & h & Hrun & Hh & Hc & Hinv & _ & Hdp).
  exists bs, w', h. simpl in Hc. repeat split; try done; try apply Hinv.
  - rewrite <- Hdp in H. apply elem_of_dom in H as [p Hp].
    destruct (Z_lt_le_dec 0 (available_beds h)) as [Hb|Hb].
    + exists true; eexists; exists (admitted patient h).
      rewrite (admit_patient_beds _ _ _ _ _ Hh Hp Hb).
      split; [reflexivity|]. simpl. rewrite lookup_insert_eq.
      repeat split; try done; try (by apply hospital_inv_admitted).
      symmetry. by apply Z.ltb_lt.
    + exists false, w', h. rewrite (admit_patient_full _ _ _ _ Hh Hb).
      repeat split; try done; try apply Hinv. symmetry. by apply Z.ltb_ge.
  - rewrite <- Hdp in H. apply elem_of_dom in H as [p Hp].
    destruct (decide (patient ∈ referrals_received h)) as [Hin|Hin].
    + exists true; eexists; exists (discharged patient h).
      rewrite (discharge_patient_present _ _ _ _ _ Hh Hp Hin).
      split; [reflexivity|]. simpl. rewrite lookup_insert_eq.
      repeat split; try done; try (by apply hospital_inv_discharged).
      by rewrite bool_decide_eq_true_2.
    + exists false, w', h. rewrite (discharge_patient_absent _ _ _ _ Hh Hin).
      repeat split; try done; try apply Hinv. by rewrite bool_decide_eq_false_2.
Qed.

Lemma hospital_beds_within_capacity_witness :
  hospital_inv (Hospital_init "Hospital A" kisumu 5 "general") ∧
  ∃ bs w' h,
    calls [AdmitPatient 0 0; AdmitPatient 0 0; DischargePatient 0 0; DischargePatient 1 0] session0 = inr (bs, w') ∧
    hospital_objs w' !! 0 = Some h ∧ capacity h = 5%Z ∧ hospital_inv h ∧
    ∀ patient, patient ∈ dom (patient_objs session0) →
      (∃ b w'' h', admit_patient 0 patient w' = inr (b, w'') ∧
         b = (0 <? available_beds h)%Z ∧
         hospital_objs w'' !! 0 = Some h' ∧
         capacity h' = 5%Z ∧ hospital_inv h' ∧
         if b then available_beds h' = (available_beds h - 1)%Z else w'' = w') ∧
      (∃ b w'' h', discharge_patient 0 patient w' = inr (b, w'') ∧
         b = bool_decide (patient ∈ referrals_received h) ∧
         hospital_objs w'' !! 0 = Some h' ∧
         capacity h' = 5%Z ∧ hospital_inv h' ∧
         if b then available_beds h' = (available_beds h + 1)%Z else w'' = w').
Proof.
  apply (hospital_beds_within_capacity "Hospital A" "general" kisumu 5 session0 0).
  - lia.
  - reflexivity.
  - repeat constructor.
Defined.

(** C10: [admit_patient] looks at [available_beds] only.  Whatever the
    patient's status and whether or not the patient is already in
    [referrals_received], the call succeeds when [available_beds > 0],
    lowers [available_beds] by one and appends the patient; admitting the
    same patient again (a bed still being free) succeeds again, so the
    beds go down by two and the patient is stored twice. *)
Theorem admit_patient_checks_beds_only
    (w : World) (self patient : ref) (h : Hospital) (p : Patient) :
  hospital_objs w !! self = Some h →
  patient_objs w !! patient = Some p →
  (0 < available_beds h)%Z →
  ∃ w1 h1, admit_patient self patient w = inr (true, w1) ∧
    hospital_objs w1 !! self = Some h1 ∧
    available_beds h1 = (available_beds h - 1)%Z ∧
    referrals_received h1 = referrals_received h ++ [patient] ∧
    ((1 < available_beds h)%Z →
     ∃ w2 h2, admit_patient self patient w1 = inr (true, w2) ∧
       hospital_objs w2 !! self = Some h2 ∧
       available_beds h2 = (available_beds h - 2)%Z ∧
       referrals_received h2 = referrals_received h ++ [patient; patient]).
Proof.
  intros Hh Hp Hb.
  eexists; exists (admitted patient h).
  rewrite (admit_patient_beds _ _ _ _ _ Hh Hp Hb).
  split; [reflexivity|]. simpl.
  rewrite lookup_insert_eq. repeat split; try done.
  intros Hb2. eexists; exists (admitted patient (admitted patient h)).
  erewrite admit_patient_beds;
    [| simpl; apply lookup_insert_eq | simpl; apply lookup_insert_eq | simpl; lia ].
  split; [reflexivity|]. simpl. rewrite lookup_insert_eq. repeat split; try done.
  - lia.
  - by rewrite <- app_assoc.
Qed.

Lemma admit_patient_checks_beds_only_witness :
  ∃ w1 h1, admit_patient 0 0 session0 = inr (true, w1) ∧
    hospital_objs w1 !! 0 = Some h1 ∧
    available_beds h1 = 4%Z ∧
    referrals_received h1 = [0] ∧
    ((1 < 5)%Z →
     ∃ w2 h2, admit_patient 0 0 w1 = inr (true, w2) ∧
       hospital_objs w2 !! 0 = Some h2 ∧
       available_beds h2 = 3%Z ∧
       referrals_received h2 = [0; 0]).
Proof.
  apply (admit_patient_checks_beds_only session0 0 0
           (Hospital_init "Hospital A" kisumu 5 "general")
           (Patient_init "John Otieno" "trauma" 4 None)).
  - reflexivity.
  - reflexivity.
  - simpl. lia.
Defined.

(** ** Ambulance: dispatch and release *)

Lemma dispatch_run w self patient dest a :
  ambulance_objs w !! self = Some a →
  dispatch self patient dest w =
    inr (tt, with_ambulance_objs (insert self (dispatched patient dest a)) w).
Proof.
  intros Ha. unfold dispatch, ambulance_set.
  erewrite bind_inr; [|by apply assign_Some].
  erewrite bind_inr; [|apply assign_Some; simpl; apply lookup_insert_eq].
  erewrite assign_Some; [|simpl; apply lookup_insert_eq].
  unfold with_ambulance_objs, dispatched; simpl.
  by rewrite !insert_insert_eq.
Qed.

Lemma dispatch_inv w self patient dest u w' :
  dispatch self patient dest w = inr (u, w') →
  ∃ a, ambulance_objs w !! self = Some a ∧
       w' = with_ambulance_objs (insert self (dispatched patient dest a)) w.
Proof.
  destruct (ambulance_objs w !! self) as [a|] eqn:Ha.
  - rewrite (dispatch_run _ _ _ _ _ Ha). intros [= _ <-]. by exists a.
  - unfold dispatch, bind, ambulance_set, assign. by rewrite Ha.
Qed.

Section Ledger.
Variable wall_clock : nat → datetime.

Lemma complete_transfer_carrying w self a p pat :
  ambulance_objs w !! self = Some a →
  current_patient a = Some p →
  patient_objs w !! p = Some pat →
  complete_transfer wall_clock self w =
    inr (tt, with_ambulance_objs (insert self (released a))
               (with_patient_objs
                  (insert p (set_transfer_completion_time
                               (Some (wall_clock (clock_reads w))) pat))
                  (tick_clock w))).
Proof.
  intros Ha Hcur Hp. unfold complete_transfer, ambulance_set, ambulance_get, patient_set.
  erewrite bind_inr; [|by apply assign_Some].
  erewrite bind_inr; [|apply deref_Some; simpl; apply lookup_insert_eq].
  simpl. rewrite Hcur.
  erewrite bind_inr; [|erewrite bind_inr; [|reflexivity]; by apply assign_Some].
  erewrite bind_inr; [|apply assign_Some; simpl; apply lookup_insert_eq].
  erewrite assign_Some; [|simpl; apply lookup_insert_eq].
  unfold with_ambulance_objs, with_patient_objs, tick_clock, released; simpl.
  by rewrite !insert_insert_eq.
Qed.

Lemma complete_transfer_empty w self a :
  ambulance_objs w !! self = Some a →
  current_patient a = None →
  complete_transfer wall_clock self w =
    inr (tt, with_ambulance_objs (insert self (released a)) w).
Proof.
  intros Ha Hcur. unfold complete_transfer, ambulance_set, ambulance_get.
  erewrite bind_inr; [|by apply assign_Some].
  erewrite bind_inr; [|apply deref_Some; simpl; apply lookup_insert_eq].
  simpl. rewrite Hcur.
  erewrite bind_inr; [|reflexivity].
  erewrite bind_inr; [|apply assign_Some; simpl; apply lookup_insert_eq].
  erewrite assign_Some; [|simpl; apply lookup_insert_eq].
  unfold with_ambulance_objs, released; simpl.
  by rewrite !insert_insert_eq.
Qed.

(** ** First-fit search *)

Lemma first_available_none w l :
  Forall (λ r, r ∈ dom (ambulance_objs w)) l →
  (∀ r a, r ∈ l → ambulance_objs w !! r = Some a → amb_status a ≠ "available") →
  first_available l w = inr (None, w).
Proof.
  induction l as [|r l IH]; intros Hlive Hbusy; [done|].
  apply Forall_cons in Hlive as [Hr Hl]. apply elem_of_dom in Hr as [a Ha].
  simpl. unfold ambulance_get. erewrite bind_inr; [|by apply deref_Some].
  assert (amb_status a ≠ "available") as Hne by (eapply Hbusy; [left|done]).
  apply String.eqb_neq in Hne. rewrite Hne.
  apply IH; [done|]. intros r' a' Hin. apply Hbusy. by right.
Qed.

Lemma first_available_first w l i r a :
  Forall (λ r, r ∈ dom (ambulance_objs w)) l →
  l !! i = Some r →
  ambulance_objs w !! r = Some a →
  amb_status a = "available" →
  (∀ j r' a', j < i → l !! j = Some r' → ambulance_objs w !! r' = Some a' →
              amb_status a' ≠ "available") →
  first_available l w = inr (Some r, w).
Proof.
  revert i. induction l as [|r0 l IH]; intros i Hlive Hi Ha Hav Hbefore; [done|].
  apply Forall_cons in Hlive as [Hr0 Hl]. apply elem_of_dom in Hr0 as [a0 Ha0].
  simpl. unfold ambulance_get. erewrite bind_inr; [|by apply deref_Some].
  destruct i as [|i]; simpl in Hi.
  - injection Hi as ->. assert (a0 = a) as -> by congruence.
    apply String.eqb_eq in Hav. by rewrite Hav.
  - assert (amb_status a0 ≠ "available") as Hne.
    { apply (Hbefore 0 r0 a0); [lia|done|done]. }
    apply String.eqb_neq in Hne. rewrite Hne.
    apply (IH i); try done.
    intros j r' a' Hj. apply (Hbefore (S j)). lia.
Qed.

Lemma first_available_total w l :
  Forall (λ r, r ∈ dom (ambulance_objs w)) l →
  ∃ res, first_available l w = inr (res, w).
Proof.
  induction l as [|r l IH]; intros Hlive; [by exists None|].
  apply Forall_cons in Hlive as [Hr Hl]. apply elem_of_dom in Hr as [a Ha].
  simpl. unfold ambulance_get. erewrite bind_inr; [|by apply deref_Some].
  destruct (String.eqb _ _); [by exists (Some r)|by apply IH].
Qed.

Lemma first_available_sound w l r w' :
  first_available l w = inr (Some r, w') →
  w' = w ∧ r ∈ l ∧ ∃ a, ambulance_objs w !! r = Some a ∧ amb_status a = "available".
Proof.
  induction l as [|r0 l IH]; [done|]. simpl. intros Hrun.
  apply bind_inv in Hrun as (a0 & w1 & Hget & Hrun).
  apply deref_inr in Hget as [Ha0 ->].
  destruct (String.eqb _ _) eqn:Heq.
  - injection Hrun as <- <-. apply String.eqb_eq in Heq.
    split; [done|]. split; [left|]. eauto.
  - destruct (IH Hrun) as (-> & Hin & Hex). split; [done|]. split; [by right|done].
Qed.

(** ** create_referral *)

Lemma create_referral_supplied w patient from_hospital to_hospital amb a :
  ambulance_objs w !! amb = Some a →
  let r := new_referral w (wall_clock (clock_reads w))
             patient from_hospital to_hospital amb in
  create_referral wall_clock patient from_hospital to_hospital (Some amb) w =
    inr (Some r, referred_world r a w).
Proof.
  intros Ha r. unfold create_referral.
  erewrite bind_inr; [|reflexivity]. cbv beta iota.
  erewrite bind_inr; [|reflexivity].
  erewrite bind_inr; [|reflexivity].
  erewrite bind_inr; [|by apply dispatch_run].
  reflexivity.
Qed.

Lemma create_referral_search w patient from_hospital to_hospital res :
  first_available (ambulances w) w = inr (res, w) →
  create_referral wall_clock patient from_hospital to_hospital None w =
    match res with
    | Some amb => create_referral wall_clock patient from_hospital to_hospital (Some amb) w
    | None => inr (None, w)
    end.
Proof.
  intros Hres. unfold create_referral at 1, find_available_ambulance.
  erewrite bind_inr; [|erewrite bind_inr; [|reflexivity]; exact Hres].
  by destruct res.
Qed.

(** ** complete_referral *)

Lemma find_referral_None referral_id l :
  (∀ r, r ∈ l → ref_id r ≠ referral_id) → find_referral referral_id l = None.
Proof.
  induction l as [|r l IH]; intros Hno; [done|]. simpl.
  assert (ref_id r ≠ referral_id) as Hne by (apply Hno; left).
  apply Z.eqb_neq in Hne. rewrite Hne, IH; [done|].
  intros r' Hin. apply Hno. by right.
Qed.

Lemma find_referral_Some referral_id l i :
  find_referral referral_id l = Some i →
  ∃ r, l !! i = Some r ∧ ref_id r = referral_id.
Proof.
  revert i. induction l as [|r l IH]; intros i; [done|]. simpl.
  destruct (ref_id r =? referral_id)%Z eqn:Heq.
  - intros [= <-]. exists r. split; [done|]. by apply Z.eqb_eq.
  - destruct (find_referral referral_id l) as [k|]; [|done].
    intros [= <-]. by apply IH.
Qed.

Lemma find_referral_in referral_id l r :
  r ∈ l → ref_id r = referral_id → is_Some (find_referral referral_id l).
Proof.
  induction l as [|r0 l IH]; intros Hin Hid.
  - by apply elem_of_nil in Hin.
  - simpl. destruct (ref_id r0 =? referral_id)%Z eqn:Heq; [by eexists|].
    apply elem_of_cons in Hin as [->|Hin].
    + apply Z.eqb_neq in Heq. done.
    + destruct (IH Hin Hid) as [k ->]. by eexists.
Qed.

Lemma find_referral_alter referral_id l f i :
  (∀ r, ref_id (f r) = ref_id r) →
  find_referral referral_id (alter f i l) = find_referral referral_id l.
Proof.
  intros Hf. revert i. induction l as [|r l IH]; intros i; [done|].
  destruct i as [|i]; simpl.
  - by rewrite Hf.
  - by rewrite <- (IH i).
Qed.

Lemma stamp_carried_frame w a :
  let w' := stamp_carried wall_clock a w in
  hospital_objs w' = hospital_objs w ∧
  ambulance_objs w' = ambulance_objs w ∧
  referral_requests w' = referral_requests w ∧
  referral_history w' = referral_history w ∧
  hospitals w' = hospitals w ∧
  ambulances w' = ambulances w ∧
  rng_draws w' = rng_draws w ∧
  dom (patient_objs w') = dom (patient_objs w) ∧
  (clock_reads w ≤ clock_reads w')%nat.
Proof.
  unfold stamp_carried. destruct (current_patient a) as [q|]; [|by simpl].
  destruct (patient_objs w !! q) as [qp|] eqn:Hq; [|by simpl]. simpl.
  repeat split; try done; [|lia]. apply dom_insert_lookup_L. eauto.
Qed.

Lemma stamp_carried_patient w a p pat :
  patient_objs w !! p = Some pat →
  ∃ pat', patient_objs (stamp_carried wall_clock a w) !! p = Some pat' ∧
          pat_name pat' = pat_name pat.
Proof.
  intros Hp. unfold stamp_carried.
  destruct (current_patient a) as [q|]; [|by exists pat].
  destruct (patient_objs w !! q) as [qp|] eqn:Hq; [|by exists pat]. simpl.
  destruct (decide (q = p)) as [->|Hne].
  - rewrite lookup_insert_eq. eexists. split; [done|]. simpl. congruence.
  - rewrite lookup_insert_ne by done. by exists pat.
Qed.

Lemma complete_transfer_run w self a :
  ambulance_objs w !! self = Some a →
  (∀ q, current_patient a = Some q → q ∈ dom (patient_objs w)) →
  complete_transfer wall_clock self w =
    inr (tt, with_ambulance_objs (insert self (released a))
               (stamp_carried wall_clock a w)).
Proof.
  intros Ha Hq. unfold stamp_carried.
  destruct (current_patient a) as [q|] eqn:Hcur.
  - pose proof (Hq q eq_refl) as Hd. apply elem_of_dom in Hd as [pat Hpat].
    rewrite Hpat.
    by apply complete_transfer_carrying.
  - by apply complete_transfer_empty.
Qed.

Lemma complete_referral_run w referral_id i r a pat fh th :
  find_referral referral_id (referral_requests w) = Some i →
  referral_requests w !! i = Some r →
  ambulance_objs w !! ref_ambulance r = Some a →
  (∀ q, current_patient a = Some q → q ∈ dom (patient_objs w)) →
  patient_objs w !! ref_patient r = Some pat →
  hospital_objs w !! ref_from_hospital r = Some fh →
  hospital_objs w !! ref_to_hospital r = Some th →
  complete_referral wall_clock referral_id w =
    inr (Some (set_ref_status "completed" r),
         completed_world wall_clock i r a
           (history_row r pat fh th a
              (wall_clock (clock_reads (stamp_carried wall_clock a w)))) w).
Proof.
  intros Hfind Hi Ha Hcar Hpat Hfh Hth.
  destruct (stamp_carried_patient w a _ _ Hpat) as (pat' & Hpat' & Hname).
  destruct (stamp_carried_frame w a) as (Hhosp & _ & Hreq & _).
  unfold complete_referral.
  erewrite bind_inr; [|reflexivity]. rewrite Hfind.
  erewrite bind_inr; [|unfold referral_at; by rewrite Hi].
  erewrite bind_inr; [|by apply complete_transfer_run].
  erewrite bind_inr; [|reflexivity].
  erewrite bind_inr; [|reflexivity].
  erewrite bind_inr;
    [|unfold referral_at; simpl; rewrite list_lookup_alter_eq, Hreq, Hi; reflexivity].
  simpl ref_patient; simpl ref_from_hospital; simpl ref_to_hospital;
    simpl ref_ambulance.
  erewrite bind_inr; [|apply deref_Some; simpl; exact Hpat'].
  erewrite bind_inr; [|apply deref_Some; simpl; rewrite Hhosp; exact Hfh].
  erewrite bind_inr; [|apply deref_Some; simpl; rewrite Hhosp; exact Hth].
  erewrite bind_inr; [|apply deref_Some; simpl; apply lookup_insert_eq].
  erewrite bind_inr; [|reflexivity].
  unfold ret, completed_world, history_row. simpl. by rewrite Hname.
Qed.

Lemma completed_world_fields w i r a row :
  let w' := completed_world wall_clock i r a row w in
  hospital_objs w' = hospital_objs w ∧
  ambulance_objs w' = <[ref_ambulance r := released a]> (ambulance_objs w) ∧
  referral_requests w' = alter (set_ref_status "completed") i (referral_requests w) ∧
  referral_history w' = referral_history w ++ [row] ∧
  patient_objs w' = patient_objs (stamp_carried wall_clock a w) ∧
  hospitals w' = hospitals w ∧ ambulances w' = ambulances w.
Proof.
  destruct (stamp_carried_frame w a) as (Hh & Ha & Hr & Hy & Hhs & Has & _).
  unfold completed_world; simpl. by rewrite Hh, Ha, Hr, Hy, Hhs, Has.
Qed.

Lemma referral_live_objects w r :
  referral_live w r →
  ∃ a pat fh th,
    ambulance_objs w !! ref_ambulance r = Some a ∧
    (∀ q, current_patient a = Some q → q ∈ dom (patient_objs w)) ∧
    patient_objs w !! ref_patient r = Some pat ∧
    hospital_objs w !! ref_from_hospital r = Some fh ∧
    hospital_objs w !! ref_to_hospital r = Some th.
Proof.
  intros (Hp & Hf & Ht & a & Ha & Hq).
  apply elem_of_dom in Hp as [pat Hp]. apply elem_of_dom in Hf as [fh Hf].
  apply elem_of_dom in Ht as [th Ht]. by exists a, pat, fh, th.
Qed.

(** ** What a returning call has done *)

Lemma first_available_state w l res w' :
  first_available l w = inr (res, w') → w' = w.
Proof.
  induction l as [|r0 l IH]; simpl.
  - by intros [= _ <-].
  - intros Hrun. apply bind_inv in Hrun as (a0 & w1 & Hget & Hrun).
    apply deref_inr in Hget as [_ ->].
    destruct (String.eqb _ _); [by injection Hrun as _ <-|by apply IH].
Qed.

Lemma complete_transfer_inv w self u w' :
  complete_transfer wall_clock self w = inr (u, w') →
  ∃ a, ambulance_objs w !! self = Some a ∧
       w' = with_ambulance_objs (insert self (released a))
              (stamp_carried wall_clock a w).
Proof.
  destruct (ambulance_objs w !! self) as [a|] eqn:Ha.
  - destruct (current_patient a) as [q|] eqn:Hcur.
    + destruct (patient_objs w !! q) as [qp|] eqn:Hq.
      * rewrite (complete_transfer_carrying _ _ _ _ _ Ha Hcur Hq).
        intros [= _ <-]. exists a. split; [done|].
        unfold stamp_carried. by rewrite Hcur, Hq.
      * unfold complete_transfer, ambulance_set, ambulance_get.
        erewrite bind_inr; [|by apply assign_Some].
        erewrite bind_inr; [|apply deref_Some; simpl; apply lookup_insert_eq].
        simpl. rewrite Hcur. unfold bind at 1. unfold bind at 1.
        unfold now, patient_set, assign. simpl. by rewrite Hq.
    + rewrite (complete_transfer_empty _ _ _ Ha Hcur).
      intros [= _ <-]. exists a. split; [done|].
      unfold stamp_carried. by rewrite Hcur.
  - unfold complete_transfer, bind, ambulance_set, assign. by rewrite Ha.
Qed.

Lemma create_referral_inv w patient from_hospital to_hospital ambulance res w' :
  create_referral wall_clock patient from_hospital to_hospital ambulance w
    = inr (res, w') →
  match res with
  | None => w' = w
  | Some r =>
      ∃ a, ambulance_objs w !! ref_ambulance r = Some a ∧
           r = new_referral w (wall_clock (clock_reads w))
                 patient from_hospital to_hospital (ref_ambulance r) ∧
           w' = referred_world r a w
  end.
Proof.
  assert (∀ amb, create_referral wall_clock patient from_hospital to_hospital
                   (Some amb) w = inr (res, w') →
                 match res with
                 | None => w' = w
                 | Some r =>
                     ∃ a, ambulance_objs w !! ref_ambulance r = Some a ∧
                          r = new_referral w (wall_clock (clock_reads w))
                                patient from_hospital to_hospital (ref_ambulance r) ∧
                          w' = referred_world r a w
                 end) as Hsup.
  { intros amb. destruct (ambulance_objs w !! amb) as [a|] eqn:Ha.
    - rewrite (create_referral_supplied _ _ _ _ _ _ Ha).
      intros [= <- <-]. by exists a.
    - unfold create_referral. erewrite bind_inr; [|reflexivity]. cbv beta iota.
      erewrite bind_inr; [|reflexivity]. erewrite bind_inr; [|reflexivity].
      unfold bind, dispatch, bind, ambulance_set, assign. simpl. by rewrite Ha. }
  destruct ambulance as [amb|]; [by apply Hsup|].
  intros Hrun. unfold create_referral in Hrun.
  apply bind_inv in Hrun as (found & w1 & Hfind & Hrun).
  unfold find_available_ambulance in Hfind.
  apply bind_inv in Hfind as (w0 & w0' & [= <- <-] & Hfind).
  pose proof (first_available_state _ _ _ _ Hfind) as ->.
  destruct found as [amb|]; [|by injection Hrun as <- <-].
  apply Hsup with amb. unfold create_referral.
  erewrite bind_inr; [|reflexivity]. exact Hrun.
Qed.

Lemma complete_referral_inv w referral_id res w' :
  complete_referral wall_clock referral_id w = inr (res, w') →
  match res with
  | None => w' = w
  | Some _ =>
      ∃ i r a row,
        referral_requests w !! i = Some r ∧
        ambulance_objs w !! ref_ambulance r = Some a ∧
        w' = completed_world wall_clock i r a row w ∧
        row_Request_Time row = ref_timestamp r ∧
        row_Completion_Time row
          = wall_clock (clock_reads (stamp_carried wall_clock a w))
  end.
Proof.
  unfold complete_referral. intros Hrun.
  apply bind_inv in Hrun as (w0 & w0' & [= <- <-] & Hrun).
  destruct (find_referral referral_id (referral_requests w)) as [i|] eqn:Hfind;
    [|by injection Hrun as <- <-].
  apply bind_inv in Hrun as (r & w1 & Hr & Hrun).
  unfold referral_at in Hr.
  destruct (referral_requests w !! i) as [r0|] eqn:Hi; [|done].
  injection Hr as -> <-.
  apply bind_inv in Hrun as (u & w2 & Hct & Hrun).
  apply complete_transfer_inv in Hct as (a & Ha & ->).
  apply bind_inv in Hrun as (u2 & w3 & [= _ <-] & Hrun).
  apply bind_inv in Hrun as (t & w4 & [= <- <-] & Hrun).
  apply bind_inv in Hrun as (r' & w5 & Hr' & Hrun).
  destruct (stamp_carried_frame w a) as (_ & _ & Hreq & _).
  unfold referral_at in Hr'. simpl in Hr'.
  rewrite list_lookup_alter_eq, Hreq, Hi in Hr'. simpl in Hr'.
  injection Hr' as <- <-.
  apply bind_inv in Hrun as (p & w6 & [_ ->]%deref_inr & Hrun).
  apply bind_inv in Hrun as (fh & w7 & [_ ->]%deref_inr & Hrun).
  apply bind_inv in Hrun as (th & w8 & [_ ->]%deref_inr & Hrun).
  apply bind_inv in Hrun as (a' & w9 & [_ ->]%deref_inr & Hrun).
  apply bind_inv in Hrun as (u3 & w10 & [= _ <-] & Hrun).
  injection Hrun as <- <-.
  eexists i, r, a, _. split; [done|]. split; [done|].
  split; [reflexivity|]. done.
Qed.

(** C4: without a supplied ambulance, [create_referral] returns [None]
    and changes nothing when no registered ambulance is "available";
    otherwise it takes the first ambulance of the registration list whose
    status is "available", sets its status to "dispatched", binds the
    patient and the destination hospital to it, appends a record with
    status "in_transit" to the ledger and returns that record. *)
Theorem create_referral_first_fit
    (w : World) (patient from_hospital to_hospital : ref) :
  fleet_live w →
  ((∀ r a, r ∈ ambulances w → ambulance_objs w !! r = Some a →
           amb_status a ≠ "available") →
   create_referral wall_clock patient from_hospital to_hospital None w
     = inr (None, w)) ∧
  (∀ i amb a,
     ambulances w !! i = Some amb →
     ambulance_objs w !! amb = Some a →
     amb_status a = "available" →
     (∀ j r' a', j < i → ambulances w !! j = Some r' →
                 ambulance_objs w !! r' = Some a' → amb_status a' ≠ "available") →
     ∃ r w' a',
       create_referral wall_clock patient from_hospital to_hospital None w
         = inr (Some r, w') ∧
       ref_ambulance r = amb ∧ ref_patient r = patient ∧
       ref_from_hospital r = from_hospital ∧ ref_to_hospital r = to_hospital ∧
       ref_status r = "in_transit" ∧
       ambulance_objs w' !! amb = Some a' ∧
       amb_status a' = "dispatched" ∧
       current_patient a' = Some patient ∧
       destination a' = Some to_hospital ∧
       referral_requests w' = referral_requests w ++ [r]).
Proof.
  intros Hlive. split.
  - intros Hbusy.
    rewrite (create_referral_search _ _ _ _ None); [done|].
    by apply first_available_none.
  - intros i amb a Hi Ha Hav Hbefore.
    rewrite (create_referral_search _ _ _ _ (Some amb));
      [|by eapply first_available_first].
    rewrite (create_referral_supplied _ _ _ _ _ _ Ha).
    do 2 eexists. exists (dispatched patient to_hospital a).
    split; [reflexivity|]. simpl. rewrite lookup_insert_eq. by repeat split.
Qed.

(** C7: when no ambulance is supplied and no registered ambulance has
    status "available", [create_referral] returns [None] and the whole
    world -- hospitals, patients, ambulances, ledger and history -- is left
    as it was. *)
Theorem create_referral_no_ambulance
    (w : World) (patient from_hospital to_hospital : ref) :
  fleet_live w →
  (∀ r a, r ∈ ambulances w → ambulance_objs w !! r = Some a →
          amb_status a ≠ "available") →
  create_referral wall_clock patient from_hospital to_hospital None w
    = inr (None, w).
Proof.
  intros Hlive Hbusy.
  rewrite (create_referral_search _ _ _ _ None); [done|].
  by apply first_available_none.
Qed.

(** C8: for an id that no record of the ledger carries, [complete_referral]
    returns [None] and the whole world -- ambulances, patients, ledger and
    history -- is left as it was. *)
Theorem complete_referral_unknown_id (w : World) (referral_id : Z) :
  (∀ r, r ∈ referral_requests w → ref_id r ≠ referral_id) →
  complete_referral wall_clock referral_id w = inr (None, w).
Proof.
  intros Hno. unfold complete_referral.
  erewrite bind_inr; [|reflexivity].
  by rewrite find_referral_None.
Qed.

(** C2, as the code has it: a call that supplies no ambulance selects only
    an ambulance whose status is "available", taken from the registration
    list; a call that supplies one uses it whatever its status.  Every call
    on existing objects returns; after a successful one the selected
    ambulance is "dispatched", no other ambulance object has changed, and
    exactly one record, with status "in_transit", has been appended to
    the ledger; a failed one (possible only when none was supplied) changes
    nothing. *)
Theorem create_referral_dispatches_one
    (w : World) (patient from_hospital to_hospital : ref) (ambulance : option ref) :
  fleet_live w →
  (∀ amb, ambulance = Some amb → amb ∈ dom (ambulance_objs w)) →
  ∃ res w',
    create_referral wall_clock patient from_hospital to_hospital ambulance w
      = inr (res, w') ∧
    match res with
    | None => ambulance = None ∧ w' = w
    | Some r =>
        ∃ a, ambulance_objs w !! ref_ambulance r = Some a ∧
          (ambulance = None →
             amb_status a = "available" ∧ ref_ambulance r ∈ ambulances w) ∧
          (∀ amb, ambulance = Some amb → ref_ambulance r = amb) ∧
          ambulance_objs w' =
            <[ref_ambulance r := dispatched patient to_hospital a]> (ambulance_objs w) ∧
          amb_status (dispatched patient to_hospital a) = "dispatched" ∧
          (∀ other, other ≠ ref_ambulance r →
                    ambulance_objs w' !! other = ambulance_objs w !! other) ∧
          ref_status r = "in_transit" ∧
          referral_requests w' = referral_requests w ++ [r]
    end.
Proof.
  intros Hlive Hsup. destruct ambulance as [amb|].
  - pose proof (Hsup amb eq_refl) as Hd. apply elem_of_dom in Hd as [a Ha].
    rewrite (create_referral_supplied _ _ _ _ _ _ Ha).
    do 2 eexists. split; [reflexivity|]. exists a. simpl.
    repeat split; try done.
    + intros amb' [= <-]. done.
    + intros other Hne. by rewrite lookup_insert_ne.
  - destruct (first_available_total w _ Hlive) as [res Hres].
    rewrite (create_referral_search _ _ _ _ _ Hres).
    destruct res as [amb|]; [|by exists None, w].
    apply first_available_sound in Hres as (_ & Hin & a & Ha & Hav).
    rewrite (create_referral_supplied _ _ _ _ _ _ Ha).
    do 2 eexists. split; [reflexivity|]. exists a. simpl.
    repeat split; try done.
    intros other Hne. by rewrite lookup_insert_ne.
Qed.

(** C1, as the code has it: when [complete_referral] finds the record for
    the id (every object the record names existing), it returns the record,
    now "completed"; the bound ambulance is "available" again with
    [current_patient] and [destination] cleared; the patient that
    ambulance was carrying, if any, has [transfer_completion_time] stamped
    with the clock reading taken by [complete_transfer]; and exactly one row
    is appended to the history, whose Patient / From Hospital / To Hospital /
    Ambulance fields are the names and id of the objects of the record,
    whose Status is "completed", whose Request Time is the record's
    timestamp and whose Completion Time is not earlier, provided the wall
    clock is never set back and the ledger was stamped by it. *)
Theorem complete_referral_releases
    (w : World) (referral_id : Z) (i : nat) (r : Referral)
    (a : Ambulance) (pat : Patient) (fh th : Hospital) :
  find_referral referral_id (referral_requests w) = Some i →
  referral_requests w !! i = Some r →
  ambulance_objs w !! ref_ambulance r = Some a →
  (∀ q, current_patient a = Some q → q ∈ dom (patient_objs w)) →
  patient_objs w !! ref_patient r = Some pat →
  hospital_objs w !! ref_from_hospital r = Some fh →
  hospital_objs w !! ref_to_hospital r = Some th →
  ∃ w' a' row,
    complete_referral wall_clock referral_id w
      = inr (Some (set_ref_status "completed" r), w') ∧
    ambulance_objs w' !! ref_ambulance r = Some a' ∧
    amb_status a' = "available" ∧
    current_patient a' = None ∧
    destination a' = None ∧
    (∀ q, current_patient a = Some q →
          ∃ qp, patient_objs w' !! q = Some qp ∧
                transfer_completion_time qp = Some (wall_clock (clock_reads w))) ∧
    referral_requests w' !! i = Some (set_ref_status "completed" r) ∧
    ref_status (set_ref_status "completed" r) = "completed" ∧
    referral_history w' = referral_history w ++ [row] ∧
    row_Patient row = pat_name pat ∧
    row_From_Hospital row = hosp_name fh ∧
    row_To_Hospital row = hosp_name th ∧
    row_Ambulance row = amb_id a ∧
    row_Status row = "completed" ∧
    row_Request_Time row = ref_timestamp r ∧
    (clock_monotone wall_clock → ledger_timed wall_clock w →
     (row_Request_Time row <= row_Completion_Time row)%Q).
Proof.
  intros Hfind Hi Ha Hcar Hpat Hfh Hth.
  rewrite (complete_referral_run _ _ _ _ _ _ _ _ Hfind Hi Ha Hcar Hpat Hfh Hth).
  eexists; exists (released a); eexists. split; [reflexivity|].
  destruct (completed_world_fields w i r a
              (history_row r pat fh th a
                 (wall_clock (clock_reads (stamp_carried wall_clock a w)))))
    as (_ & -> & -> & -> & -> & _).
  rewrite lookup_insert_eq, list_lookup_alter_eq, Hi.
  repeat split; try done.
  - intros q Hq. unfold stamp_carried. rewrite Hq.
    pose proof (Hcar q Hq) as Hd. apply elem_of_dom in Hd as [qp Hqp].
    rewrite Hqp. simpl. rewrite lookup_insert_eq. by eexists.
  - intros Hmono Htimed. simpl.
    destruct (Htimed r) as (k & Hk & ->); [by eapply list_elem_of_lookup_2|].
    apply Hmono. destruct (stamp_carried_frame w a) as (_&_&_&_&_&_&_&_&Hle).
    simpl in Hle. lia.
Qed.

(** C5: completing the same referral twice succeeds twice.  The second
    call finds the record again (its ambulance now free) and appends a
    second history row that repeats the first one in every field but the
    completion time: the history has grown by two rows for that referral. *)
Theorem complete_referral_twice
    (w : World) (referral_id : Z) (i : nat) (r : Referral) :
  find_referral referral_id (referral_requests w) = Some i →
  referral_requests w !! i = Some r →
  referral_live w r →
  ∃ r1 w1 r2 w2 row1 row2,
    complete_referral wall_clock referral_id w = inr (Some r1, w1) ∧
    complete_referral wall_clock referral_id w1 = inr (Some r2, w2) ∧
    referral_history w1 = referral_history w ++ [row1] ∧
    referral_history w2 = referral_history w ++ [row1; row2] ∧
    row_Patient row2 = row_Patient row1 ∧
    row_From_Hospital row2 = row_From_Hospital row1 ∧
    row_To_Hospital row2 = row_To_Hospital row1 ∧
    row_Ambulance row2 = row_Ambulance row1 ∧
    row_Status row2 = row_Status row1 ∧
    row_Request_Time row2 = row_Request_Time row1.
Proof.
  intros Hfind Hi Hlive.
  destruct (referral_live_objects w r Hlive) as (a & pat & fh & th & Ha & Hcar & Hpat & Hfh & Hth).
  rewrite (complete_referral_run _ _ _ _ _ _ _ _ Hfind Hi Ha Hcar Hpat Hfh Hth).
  set (row1 := history_row r pat fh th a _).
  set (w1 := completed_world wall_clock i r a row1 w).
  destruct (completed_world_fields w i r a row1) as (Hh1 & Ha1 & Hr1 & Hy1 & Hp1 & _).
  fold w1 in Hh1, Ha1, Hr1, Hy1, Hp1.
  destruct (stamp_carried_patient w a _ _ Hpat) as (pat' & Hpat' & Hname).
  rewrite <- Hp1 in Hpat'.
  assert (find_referral referral_id (referral_requests w1) = Some i) as Hfind1.
  { rewrite Hr1, find_referral_alter; done. }
  assert (referral_requests w1 !! i = Some (set_ref_status "completed" r)) as Hi1.
  { by rewrite Hr1, list_lookup_alter_eq, Hi. }
  assert (ambulance_objs w1 !! ref_ambulance (set_ref_status "completed" r)
            = Some (released a)) as Ha1'.
  { rewrite Ha1. simpl. apply lookup_insert_eq. }
  exists (set_ref_status "completed" r), w1.
  erewrite (complete_referral_run w1 _ _ _ _ pat' fh th Hfind1 Hi1 Ha1');
    [| done | exact Hpat' | by rewrite Hh1 | by rewrite Hh1 ].
  do 4 eexists. split; [reflexivity|]. split; [reflexivity|].
  split; [exact Hy1|].
  destruct (completed_world_fields w1 i (set_ref_status "completed" r) (released a)
              (history_row (set_ref_status "completed" r) pat' fh th (released a)
                 (wall_clock (clock_reads (stamp_carried wall_clock (released a) w1)))))
    as (_ & _ & _ & -> & _).
  rewrite Hy1, <- app_assoc. split; [reflexivity|].
  simpl. by rewrite Hname.
Qed.

End Ledger.

(** ** Movement simulator *)

Lemma int_float_limit_large : (2 ^ 53 < int_float_limit)%Z.
Proof. vm_compute. reflexivity. Qed.

(** The limit is where the nearest double stops being finite. *)
Lemma int_float_limit_sharp :
  is_infinity (int_float (int_float_limit - 1)) = false ∧
  is_infinity (int_float int_float_limit) = true ∧
  is_infinity (int_float (1 - int_float_limit)) = false ∧
  is_infinity (int_float (- int_float_limit)) = true.
Proof. vm_compute. by repeat split. Qed.

Lemma int_float_small :
  int_float 7 = 7%float ∧ int_float 60 = 60%float ∧ int_float (-1) = (-1)%float ∧
  int_float (2 ^ 53 + 1) = 9007199254740992%float.
Proof. vm_compute. by repeat split. Qed.

Lemma float_of_int_in_range z :
  (Z.abs z < int_float_limit)%Z → float_of_int z = inr (int_float z).
Proof.
  intros Hz. unfold float_of_int.
  destruct (int_float_limit <=? Z.abs z)%Z eqn:Hle; [|done].
  apply Z.leb_le in Hle. lia.
Qed.

Lemma float_of_int_too_large z :
  (int_float_limit ≤ Z.abs z)%Z → float_of_int z = inl OverflowError.
Proof.
  intros Hz. unfold float_of_int. apply Z.leb_le in Hz. by rewrite Hz.
Qed.

Lemma py_range_lookup lo hi k :
  k < Z.to_nat (hi - lo) → py_range lo hi !! k = Some (lo + Z.of_nat k)%Z.
Proof.
  intros Hk. unfold py_range.
  change (map ?f ?l) with (f <$> l).
  rewrite list_lookup_fmap, lookup_seq_lt by done. reflexivity.
Qed.

Lemma py_range_length lo hi : length (py_range lo hi) = Z.to_nat (hi - lo).
Proof. unfold py_range. by rewrite length_map, length_seq. Qed.

Section Tracker.
Variable wall_clock : nat → datetime.
Variable rng : nat → float.
Variable geodesic_km : location → location → exn + float.
Variable plus_minutes : datetime → float → exn + datetime.

Lemma route_loop start end_ num_points lat_diff lon_diff d m : ∀ s pts w,
  lat_diff = ((fst end_ - fst start) / int_float (num_points + 1))%float →
  lon_diff = ((snd end_ - snd start) / int_float (num_points + 1))%float →
  rng_draws w = d + 2 * s →
  (Z.of_nat (s + m) < int_float_limit)%Z →
  for_each (map (λ k, (1 + Z.of_nat k)%Z) (seq s m))
    (λ i pts,
       do lat_step <- lift (float_mul_int lat_diff i);
       do j_lat <- random_uniform rng (-0.0005) 0.0005;
       do lon_step <- lift (float_mul_int lon_diff i);
       do j_lon <- random_uniform rng (-0.0005) 0.0005;
       ret (pts ++ [ (fst start + lat_step + j_lat,
                      snd start + lon_step + j_lon)%float ]))
    pts w
  = inr (pts ++ map (route_point rng start end_ num_points d)
                    (map (λ k, (1 + Z.of_nat k)%Z) (seq s m)),
         with_rng_draws (rng_draws w + 2 * m) w).
Proof.
  induction m as [|m IH]; intros s pts w Hlat Hlon Hd Hbound.
  - simpl. unfold ret. rewrite app_nil_r. f_equal. f_equal.
    destruct w; unfold with_rng_draws; simpl. f_equal. lia.
  - simpl seq. simpl map. simpl for_each.
    assert (float_of_int (1 + Z.of_nat s) = inr (int_float (1 + Z.of_nat s))) as Hconv.
    { apply float_of_int_in_range. lia. }
    unfold float_mul_int. rewrite Hconv.
    erewrite bind_inr; [|reflexivity].
    rewrite (IH (S s)); [|done|done|simpl; lia|lia].
    f_equal. f_equal.
    + rewrite <- app_assoc. f_equal. simpl. f_equal.
      unfold route_point, jitter. simpl rng_draws.
      replace (Z.to_nat (1 + Z.of_nat s - 1)) with s by lia.
      rewrite Hd, Hlat, Hlon.
      by replace (S (d + 2 * s)) with (d + 2 * s + 1) by lia.
    + destruct w; unfold with_rng_draws; simpl. f_equal. lia.
Qed.

Lemma generate_route_run w start end_ num_points :
  (0 ≤ num_points)%Z →
  (num_points + 1 < int_float_limit)%Z →
  generate_route rng start end_ num_points w =
    inr (map (route_point rng start end_ num_points (rng_draws w))
             (py_range 1 (num_points + 1)),
         with_rng_draws (rng_draws w + 2 * Z.to_nat num_points) w).
Proof.
  intros Hn Hlim. unfold generate_route, float_truediv_int.
  destruct (num_points + 1 =? 0)%Z eqn:Hz; [apply Z.eqb_eq in Hz; lia|].
  rewrite float_of_int_in_range by lia.
  erewrite bind_inr; [|reflexivity]. erewrite bind_inr; [|reflexivity].
  unfold py_range. replace (Z.to_nat (num_points + 1 - 1)) with (Z.to_nat num_points) by lia.
  rewrite (route_loop start end_ num_points _ _ (rng_draws w) (Z.to_nat num_points) 0 [] w)
    by (try done; lia).
  reflexivity.
Qed.

(** What [simulate_movement] computes on an existing ambulance, case by
    case. *)
Lemma simulate_movement_run w ambulance dest_loc speed_kmh a :
  ambulance_objs w !! ambulance = Some a →
  simulate_movement wall_clock rng geodesic_km plus_minutes
    ambulance dest_loc speed_kmh w
  = match geodesic_km (amb_location a) dest_loc with
    | inl e => inl e
    | inr distance_km =>
        if (speed_kmh =? 0)%float then inl ZeroDivisionError
        else
          match plus_minutes (wall_clock (clock_reads w))
                  (distance_km / speed_kmh * 60)%float with
          | inl e => inl e
          | inr arrival =>
              inr ((distance_km, Some arrival),
                   with_ambulance_objs
                     (insert ambulance
                        (moved arrival
                           (map (route_point rng (amb_location a) dest_loc 6
                                   (rng_draws w)) (py_range 1 7)) a))
                     (with_rng_draws (rng_draws w + 12) (tick_clock w)))
          end
    end.
Proof.
  intros Ha. unfold simulate_movement, ambulance_get, ambulance_set,
    calculate_distance, float_truediv.
  erewrite bind_inr; [|by apply deref_Some].
  destruct (geodesic_km (amb_location a) dest_loc) as [e|distance_km]; [done|].
  erewrite bind_inr; [|reflexivity].
  destruct (speed_kmh =? 0)%float; [done|].
  erewrite bind_inr; [|reflexivity].
  erewrite bind_inr; [|reflexivity].
  unfold bind at 1, lift at 1.
  destruct (plus_minutes _ _) as [e|arrival]; [done|].
  erewrite bind_inr; [|apply assign_Some; simpl; exact Ha].
  erewrite bind_inr; [|apply deref_Some; simpl; apply lookup_insert_eq].
  erewrite bind_inr;
    [|apply generate_route_run; [lia|pose proof int_float_limit_large; lia]].
  erewrite bind_inr; [|apply assign_Some; simpl; apply lookup_insert_eq].
  erewrite bind_inr; [|apply assign_Some; simpl; apply lookup_insert_eq].
  erewrite bind_inr; [|apply deref_Some; simpl; apply lookup_insert_eq].
  unfold ret, with_ambulance_objs, moved; simpl.
  by rewrite !insert_insert_eq.
Qed.

Lemma simulate_movement_inv w ambulance dest_loc speed_kmh res w' :
  simulate_movement wall_clock rng geodesic_km plus_minutes
    ambulance dest_loc speed_kmh w = inr (res, w') →
  ∃ a e pts,
    ambulance_objs w !! ambulance = Some a ∧
    ambulance_objs w' = <[ambulance := moved e pts a]> (ambulance_objs w) ∧
    hospital_objs w' = hospital_objs w ∧
    patient_objs w' = patient_objs w ∧
    referral_requests w' = referral_requests w ∧
    referral_history w' = referral_history w ∧
    clock_reads w' = S (clock_reads w).
Proof.
  intros Hrun.
  destruct (ambulance_objs w !! ambulance) as [a|] eqn:Ha.
  - rewrite (simulate_movement_run _ _ _ _ _ Ha) in Hrun.
    destruct (geodesic_km _ _) as [e|d]; [done|].
    destruct (speed_kmh =? 0)%float; [done|].
    destruct (plus_minutes _ _) as [e|arrival]; [done|].
    set (pts := map _ (py_range 1 7)) in Hrun.
    injection Hrun as <- <-. exists a, arrival, pts.
    split; [reflexivity|]. repeat split; reflexivity.
  - unfold simulate_movement in Hrun.
    apply bind_inv in Hrun as (a & w1 & [Hget _]%deref_inr & _). congruence.
Qed.

(** ** Invariants of a session *)

Lemma run_op_fleet_inv w o w1 :
  fleet_inv w → on_the_road w o →
  run_op wall_clock rng geodesic_km plus_minutes o w = inr (tt, w1) → fleet_inv w1.
Proof.
  intros Hinv Hroad Hrun.
  destruct o as [p f t amb|referral_id|amb dest speed]; simpl in Hrun;
    apply bind_inv in Hrun as (res & w2 & Hrun & [= <-]).
  - apply create_referral_inv in Hrun.
    destruct res as [r|]; [|by subst].
    destruct Hrun as (a & Ha & _ & ->). intros k b. simpl.
    destruct (decide (k = ref_ambulance r)) as [->|Hne].
    + rewrite lookup_insert_eq. intros [= <-].
      unfold ambulance_inv; simpl. split; [done|by eexists].
    + rewrite lookup_insert_ne by done. apply Hinv.
  - apply complete_referral_inv in Hrun.
    destruct res as [r'|]; [|by subst].
    destruct Hrun as (i & r & a & row & _ & Ha & -> & _). intros k b.
    destruct (completed_world_fields wall_clock w i r a row) as (_ & -> & _).
    destruct (decide (k = ref_ambulance r)) as [->|Hne].
    + rewrite lookup_insert_eq. intros [= <-].
      unfold ambulance_inv; simpl. split; [by intros [? ?]|done].
    + rewrite lookup_insert_ne by done. apply Hinv.
  - apply simulate_movement_inv in Hrun as (a & e & pts & Ha & Hobjs & _).
    intros k b. rewrite Hobjs. destruct (decide (k = amb)) as [->|Hne].
    + rewrite lookup_insert_eq. intros [= <-].
      unfold ambulance_inv; simpl. split; [done|]. intros _.
      apply (Hinv amb a Ha). by apply Hroad.
    + rewrite lookup_insert_ne by done. apply Hinv.
Qed.

Lemma run_op_ledger_timed w o w1 :
  ledger_timed wall_clock w →
  run_op wall_clock rng geodesic_km plus_minutes o w = inr (tt, w1) →
  ledger_timed wall_clock w1.
Proof.
  intros Htimed Hrun.
  destruct o as [p f t amb|referral_id|amb dest speed]; simpl in Hrun;
    apply bind_inv in Hrun as (res & w2 & Hrun & [= <-]).
  - apply create_referral_inv in Hrun.
    destruct res as [r|]; [|by subst].
    destruct Hrun as (a & Ha & Hr & ->). intros r'. simpl.
    intros [Hin | ->%list_elem_of_singleton]%elem_of_app.
    + destruct (Htimed r' Hin) as (k & Hk & Ht). exists k. split; [lia|done].
    + exists (clock_reads w). split; [lia|]. by rewrite Hr.
  - apply complete_referral_inv in Hrun.
    destruct res as [r'|]; [|by subst].
    destruct Hrun as (i & r & a & row & _ & _ & -> & _). intros r2.
    destruct (completed_world_fields wall_clock w i r a row) as (_ & _ & -> & _).
    destruct (stamp_carried_frame wall_clock w a) as (_&_&_&_&_&_&_&_&Hle).
    simpl in Hle. intros (j & Hj)%list_elem_of_lookup_1.
    destruct (decide (i = j)) as [->|Hne].
    + rewrite list_lookup_alter_eq in Hj.
      destruct (referral_requests w !! j) as [r3|] eqn:Hr3; [|done].
      injection Hj as <-.
      destruct (Htimed r3) as (k & Hk & Ht); [by eapply list_elem_of_lookup_2|].
      exists k. simpl. split; [lia|done].
    + rewrite list_lookup_alter_ne in Hj by done.
      destruct (Htimed r2) as (k & Hk & Ht); [by eapply list_elem_of_lookup_2|].
      exists k. simpl. split; [lia|done].
  - apply simulate_movement_inv in Hrun as (a & e & pts & _ & _ & _ & _ & Hreq & _ & Hclk).
    intros r'. rewrite Hreq, Hclk. intros Hin.
    destruct (Htimed r' Hin) as (k & Hk & Ht). exists k. split; [lia|done].
Qed.

Lemma run_op_history_ordered w o w1 :
  clock_monotone wall_clock →
  ledger_timed wall_clock w →
  history_ordered w →
  run_op wall_clock rng geodesic_km plus_minutes o w = inr (tt, w1) →
  history_ordered w1.
Proof.
  intros Hmono Htimed Hord Hrun.
  destruct o as [p f t amb|referral_id|amb dest speed]; simpl in Hrun;
    apply bind_inv in Hrun as (res & w2 & Hrun & [= <-]).
  - apply create_referral_inv in Hrun.
    destruct res as [r|]; [|by subst].
    by destruct Hrun as (a & _ & _ & ->).
  - apply complete_referral_inv in Hrun.
    destruct res as [r'|]; [|by subst].
    destruct Hrun as (i & r & a & row & Hi & _ & -> & Hreq & Hdone). intros row'.
    destruct (completed_world_fields wall_clock w i r a row) as (_ & _ & _ & -> & _).
    intros [Hin | ->%list_elem_of_singleton]%elem_of_app; [by apply Hord|].
    rewrite Hreq, Hdone.
    destruct (Htimed r) as (k & Hk & ->); [by eapply list_elem_of_lookup_2|].
    apply Hmono. destruct (stamp_carried_frame wall_clock w a) as (_&_&_&_&_&_&_&_&Hle).
    simpl in Hle. lia.
  - apply simulate_movement_inv in Hrun as (a & e & pts & _ & _ & _ & _ & _ & Hhist & _).
    intros row. rewrite Hhist. apply Hord.
Qed.

(** C3, as the code has it: a new ambulance satisfies "[current_patient]
    is set iff [status != available]", and the property is kept for every
    ambulance by every sequence of [create_referral], [complete_referral]
    and [simulate_movement] calls in which [simulate_movement] is only
    applied to ambulances whose status is not "available". *)
Theorem patient_iff_not_available
    (id : string) (loc : location) (w w' : World) :
  fleet_inv w →
  reaches wall_clock rng geodesic_km plus_minutes w w' →
  ambulance_inv (Ambulance_init id loc) ∧ fleet_inv w'.
Proof.
  intros Hinv Hreach. split.
  - unfold ambulance_inv; simpl. split; [by intros [? ?]|done].
  - induction Hreach as [w|w o w1 w2 Hroad Hrun _ IH]; [done|].
    apply IH. by eapply run_op_fleet_inv.
Qed.

End Tracker.

(** ** The small session *)

Lemma clock_minutes_monotone : clock_monotone clock_minutes.
Proof.
  intros i j Hij. unfold clock_minutes. rewrite <- Zle_Qle. lia.
Qed.

Lemma session0_fleet_live : fleet_live session0.
Proof. repeat constructor. Qed.

Lemma session1_fleet_live : fleet_live session1.
Proof. repeat constructor. Qed.

Lemma session0_fleet_inv : fleet_inv session0.
Proof.
  intros r a. destruct (decide (r = 0)) as [->|Hne].
  - intros [= <-]. unfold ambulance_inv; simpl. split; [by intros [? ?]|done].
  - simpl. rewrite lookup_insert_ne by done. by rewrite lookup_empty.
Qed.

Lemma session1_all_out r a :
  r ∈ ambulances session1 → ambulance_objs session1 !! r = Some a →
  amb_status a ≠ "available".
Proof.
  change (ambulances session1) with [0].
  intros ->%list_elem_of_singleton. intros [= <-]. done.
Qed.

Lemma session1_ledger_timed : ledger_timed clock_minutes session1.
Proof.
  intros r. change (referral_requests session1) with [referral_1].
  intros ->%list_elem_of_singleton. exists 0. split; [|reflexivity].
  change (clock_reads session1) with 1. lia.
Qed.

Lemma session1_referral_live : referral_live session1 referral_1.
Proof.
  repeat split; try (apply elem_of_dom; eexists; reflexivity).
  exists amb1_out. split; [reflexivity|].
  intros q [= <-]. apply elem_of_dom. eexists. reflexivity.
Qed.

(** ** The claims on the small session *)

Lemma create_referral_first_fit_witness :
  ∃ r w' a',
    create_referral clock_minutes 0 0 1 None session0 = inr (Some r, w') ∧
    ref_ambulance r = 0 ∧ ref_patient r = 0 ∧
    ref_from_hospital r = 0 ∧ ref_to_hospital r = 1 ∧
    ref_status r = "in_transit" ∧
    ambulance_objs w' !! 0 = Some a' ∧
    amb_status a' = "dispatched" ∧
    current_patient a' = Some 0 ∧
    destination a' = Some 1 ∧
    referral_requests w' = referral_requests session0 ++ [r].
Proof.
  destruct (create_referral_first_fit clock_minutes session0 0 0 1
              session0_fleet_live) as [_ Hfirst].
  apply (Hfirst 0 0 (Ambulance_init "AMB1" kisumu)).
  - reflexivity.
  - reflexivity.
  - reflexivity.
  - intros j r' a' Hj. lia.
Defined.

Lemma create_referral_no_ambulance_witness :
  create_referral clock_minutes 0 0 1 None session1 = inr (None, session1).
Proof.
  apply (create_referral_no_ambulance clock_minutes session1 0 0 1).
  - exact session1_fleet_live.
  - exact session1_all_out.
Defined.

Lemma complete_referral_unknown_id_witness :
  complete_referral clock_minutes 7 session1 = inr (None, session1).
Proof.
  apply (complete_referral_unknown_id clock_minutes session1 7).
  change (referral_requests session1) with [referral_1].
  intros r Hr. apply list_elem_of_singleton in Hr. subst r. simpl. lia.
Defined.

Lemma create_referral_dispatches_one_witness :
  ∃ res w',
    create_referral clock_minutes 0 0 1 None session0 = inr (res, w') ∧
    match res with
    | None => @None ref = None ∧ w' = session0
    | Some r =>
        ∃ a, ambulance_objs session0 !! ref_ambulance r = Some a ∧
          (@None ref = None →
             amb_status a = "available" ∧ ref_ambulance r ∈ ambulances session0) ∧
          (∀ amb, None = Some amb → ref_ambulance r = amb) ∧
          ambulance_objs w' =
            <[ref_ambulance r := dispatched 0 1 a]> (ambulance_objs session0) ∧
          amb_status (dispatched 0 1 a) = "dispatched" ∧
          (∀ other, other ≠ ref_ambulance r →
                    ambulance_objs w' !! other = ambulance_objs session0 !! other) ∧
          ref_status r = "in_transit" ∧
          referral_requests w' = referral_requests session0 ++ [r]
    end.
Proof.
  apply (create_referral_dispatches_one clock_minutes session0 0 0 1 None).
  - exact session0_fleet_live.
  - intros amb Hamb. discriminate Hamb.
Defined.

(** C2 as stated fails: in [session1] ambulance AMB1 is "dispatched", yet
    a call that supplies it selects it again and succeeds. *)
Lemma create_referral_supplied_not_available :
  ∃ a r w',
    ambulance_objs session1 !! 0 = Some a ∧
    amb_status a = "dispatched" ∧
    amb_status a ≠ "available" ∧
    create_referral clock_minutes 0 0 1 (Some 0) session1 = inr (Some r, w') ∧
    ref_ambulance r = 0.
Proof.
  exists amb1_out. do 2 eexists.
  split; [reflexivity|]. split; [reflexivity|]. split; [discriminate|].
  split; [vm_compute; reflexivity|]. reflexivity.
Qed.

(** C1 as stated fails: in [session2] the referral with id 1 is
    "in_transit" and ambulance AMB1 has been given a route and an ETA by
    [simulate_movement]; [complete_referral(1)] succeeds and frees the
    ambulance, but its route still has six points and its ETA is still
    set. *)
Lemma complete_referral_keeps_route_and_eta :
  ∃ r r' w' a',
    referral_requests session2 = [r] ∧ ref_id r = 1%Z ∧
    ref_status r = "in_transit" ∧
    complete_referral clock_minutes 1 session2 = inr (Some r', w') ∧
    ref_status r' = "completed" ∧
    ambulance_objs w' !! ref_ambulance r = Some a' ∧
    amb_status a' = "available" ∧
    length (route a') = 6 ∧ route a' ≠ [] ∧
    eta a' = Some (1 + 30)%Q ∧ eta a' ≠ None.
Proof.
  exists referral_1. do 3 eexists.
  split; [reflexivity|]. split; [reflexivity|]. split; [reflexivity|].
  split; [vm_compute; reflexivity|].
  split; [reflexivity|]. split; [reflexivity|]. split; [reflexivity|].
  split; [reflexivity|]. split; [discriminate|]. split; [reflexivity|discriminate].
Qed.

Lemma complete_referral_releases_witness :
  ∃ w' a' row,
    complete_referral clock_minutes 1 session1
      = inr (Some (set_ref_status "completed" referral_1), w') ∧
    ambulance_objs w' !! 0 = Some a' ∧
    amb_status a' = "available" ∧
    current_patient a' = None ∧
    destination a' = None ∧
    (∀ q, current_patient amb1_out = Some q →
          ∃ qp, patient_objs w' !! q = Some qp ∧
                transfer_completion_time qp = Some (clock_minutes 1)) ∧
    referral_requests w' !! 0 = Some (set_ref_status "completed" referral_1) ∧
    ref_status (set_ref_status "completed" referral_1) = "completed" ∧
    referral_history w' = referral_history session1 ++ [row] ∧
    row_Patient row = "John Otieno" ∧
    row_From_Hospital row = "Hospital A" ∧
    row_To_Hospital row = "Hospital B" ∧
    row_Ambulance row = "AMB1" ∧
    row_Status row = "completed" ∧
    row_Request_Time row = clock_minutes 0 ∧
    (row_Request_Time row <= row_Completion_Time row)%Q.
Proof.
  destruct (complete_referral_releases clock_minutes session1 1 0 referral_1
              amb1_out patient_P hospital_A hospital_B)
    as (w' & a' & row & Hrun & Hamb & Hst & Hcur & Hdest & Hstamp & Hrec & Hdone
        & Hhist & Hp & Hf & Ht & Ha & Hs & Hreq & Htime).
  - reflexivity.
  - reflexivity.
  - reflexivity.
  - intros q Hq. injection Hq as <-. apply elem_of_dom. eexists. reflexivity.
  - reflexivity.
  - reflexivity.
  - reflexivity.
  - exists w', a', row. repeat split; try assumption.
    apply Htime; [exact clock_minutes_monotone|exact session1_ledger_timed].
Defined.

Lemma complete_referral_twice_witness :
  ∃ r1 w1 r2 w2 row1 row2,
    complete_referral clock_minutes 1 session1 = inr (Some r1, w1) ∧
    complete_referral clock_minutes 1 w1 = inr (Some r2, w2) ∧
    referral_history w1 = referral_history session1 ++ [row1] ∧
    referral_history w2 = referral_history session1 ++ [row1; row2] ∧
    row_Patient row2 = row_Patient row1 ∧
    row_From_Hospital row2 = row_From_Hospital row1 ∧
    row_To_Hospital row2 = row_To_Hospital row1 ∧
    row_Ambulance row2 = row_Ambulance row1 ∧
    row_Status row2 = row_Status row1 ∧
    row_Request_Time row2 = row_Request_Time row1.
Proof.
  apply (complete_referral_twice clock_minutes session1 1 0 referral_1).
  - reflexivity.
  - reflexivity.
  - exact session1_referral_live.
Defined.

(** C3 as stated fails: [simulate_movement] on the free ambulance of
    [session0] returns and leaves it "en_route" with no patient. *)
Lemma simulate_movement_breaks_invariant :
  fleet_inv session0 ∧
  ∃ res w' a',
    simulate_movement clock_minutes rng_half geodesic_30 plus_minutes_exact
      0 siaya 60 session0 = inr (res, w') ∧
    ambulance_objs w' !! 0 = Some a' ∧
    amb_status a' = "en_route" ∧
    current_patient a' = None ∧
    ¬ ambulance_inv a'.
Proof.
  split; [exact session0_fleet_inv|].
  do 3 eexists. split; [vm_compute; reflexivity|].
  split; [reflexivity|]. split; [reflexivity|]. split; [reflexivity|].
  unfold ambulance_inv. simpl. intros [_ Hset].
  destruct Hset as [p Hp]; [discriminate|discriminate Hp].
Qed.

Lemma patient_iff_not_available_witness :
  ambulance_inv (Ambulance_init "AMB2" siaya) ∧ fleet_inv session3.
Proof.
  apply (patient_iff_not_available clock_minutes rng_half geodesic_30
           plus_minutes_exact "AMB2" siaya session0 session3).
  - exact session0_fleet_inv.
  - apply (reaches_next _ _ _ _ session0 (CreateReferral 0 0 1 None) session1);
      [exact I | vm_compute; reflexivity |].
    apply (reaches_next _ _ _ _ session1 (SimulateMovement 0 siaya 60) session2);
      [ | vm_compute; reflexivity |].
    { intros a Ha. injection Ha as <-. discriminate. }
    apply (reaches_next _ _ _ _ session2 (CompleteReferral 1) session3);
      [exact I | vm_compute; reflexivity |].
    apply reaches_here.
Defined.

(** * Further properties of the core *)

(** ** Hospital: admission and discharge *)

Lemma list_remove_first_app_new x l :
  x ∉ l → list_remove_first x (l ++ [x]) = l.
Proof.
  induction l as [|y l IH]; intros Hx; simpl.
  - by rewrite decide_True.
  - apply not_elem_of_cons in Hx as [Hne Hx].
    rewrite decide_False by done. by rewrite IH.
Qed.

Lemma list_remove_first_split x l :
  x ∈ l →
  ∃ l1 l2, l = l1 ++ (x :: l2) ∧ (x ∉ l1) ∧ list_remove_first x l = l1 ++ l2.
Proof.
  induction l as [|y l IH]; intros Hx.
  - by apply elem_of_nil in Hx.
  - simpl. destruct (decide (x = y)) as [->|Hne].
    + exists [], l. split; [done|]. split; [apply not_elem_of_nil|done].
    + apply elem_of_cons in Hx as [?|Hx]; [done|].
      destruct (IH Hx) as (l1 & l2 & -> & Hnot & ->).
      exists (y :: l1), l2. split; [done|]. split; [|done].
      apply not_elem_of_cons. done.
Qed.

(** Admitting a patient who is not yet in the hospital and discharging
    that patient again is a round trip for the hospital: both calls return
    [True], the hospital object is exactly what it was, and of the patient
    only the status has changed, to "discharged". *)
Theorem admit_then_discharge_restores
    (w : World) (self patient : ref) (h : Hospital) (p : Patient) :
  hospital_objs w !! self = Some h →
  patient_objs w !! patient = Some p →
  (0 < available_beds h)%Z →
  patient ∉ referrals_received h →
  ∃ w1 w2,
    admit_patient self patient w = inr (true, w1) ∧
    discharge_patient self patient w1 = inr (true, w2) ∧
    hospital_objs w2 = hospital_objs w ∧
    patient_objs w2 = <[patient := set_pat_status "discharged" p]> (patient_objs w) ∧
    w2 = with_patient_objs (λ _, patient_objs w2) w.
Proof.
  intros Hh Hp Hbeds Hnew.
  do 2 eexists. split; [by apply admit_patient_beds|].
  erewrite discharge_patient_present;
    [| simpl; apply lookup_insert_eq | simpl; apply lookup_insert_eq
     | simpl; apply elem_of_app; right; apply list_elem_of_singleton; done ].
  split; [reflexivity|].
  assert (discharged patient (admitted patient h) = h) as Hback.
  { unfold discharged, admitted, set_available_beds, set_referrals_received; simpl.
    rewrite list_remove_first_app_new by done. destruct h; simpl. f_equal. lia. }
  assert (<[self:=discharged patient (admitted patient h)]>
            (<[self:=admitted patient h]> (hospital_objs w)) = hospital_objs w) as Hhosp.
  { rewrite insert_insert_eq, Hback. by apply insert_id. }
  simpl. rewrite Hhosp, insert_insert_eq. repeat split; try done.
  unfold with_patient_objs, with_hospital_objs; simpl.
  by rewrite Hhosp, insert_insert_eq.
Qed.

Lemma admit_then_discharge_restores_witness :
  ∃ w1 w2,
    admit_patient 0 0 session0 = inr (true, w1) ∧
    discharge_patient 0 0 w1 = inr (true, w2) ∧
    hospital_objs w2 = hospital_objs session0 ∧
    patient_objs w2
      = <[0 := set_pat_status "discharged" patient_P]> (patient_objs session0) ∧
    w2 = with_patient_objs (λ _, patient_objs w2) session0.
Proof.
  apply (admit_then_discharge_restores session0 0 0 hospital_A patient_P).
  - reflexivity.
  - reflexivity.
  - simpl. lia.
  - simpl. apply not_elem_of_nil.
Defined.

(** A successful [discharge_patient] takes out the first occurrence of
    the patient and nothing else: the patients before and after it stay, in
    their order, and one bed is given back. *)
Theorem discharge_removes_first_occurrence
    (w : World) (self patient : ref) (h : Hospital) (p : Patient) :
  hospital_objs w !! self = Some h →
  patient_objs w !! patient = Some p →
  patient ∈ referrals_received h →
  ∃ w' h' before after,
    discharge_patient self patient w = inr (true, w') ∧
    hospital_objs w' !! self = Some h' ∧
    referrals_received h = before ++ (patient :: after) ∧
    (patient ∉ before) ∧
    referrals_received h' = before ++ after ∧
    available_beds h' = (available_beds h + 1)%Z.
Proof.
  intros Hh Hp Hin.
  destruct (list_remove_first_split _ _ Hin) as (l1 & l2 & Hl & Hnot & Hrm).
  eexists; exists (discharged patient h), l1, l2.
  split; [by apply discharge_patient_present|].
  simpl. rewrite lookup_insert_eq. by repeat split.
Qed.

Lemma discharge_removes_first_occurrence_witness :
  ∃ w' h' before after,
    discharge_patient 7 2
      (with_hospital_objs
         (insert 7 (set_referrals_received [1; 2; 3; 2] hospital_A))
         (with_patient_objs (insert 2 patient_P) session0)) = inr (true, w') ∧
    hospital_objs w' !! 7 = Some h' ∧
    [1; 2; 3; 2] = before ++ (2 :: after) ∧
    (2 ∉ before) ∧
    referrals_received h' = before ++ after ∧
    available_beds h' = 6%Z.
Proof.
  apply (discharge_removes_first_occurrence _ 7 2
           (set_referrals_received [1; 2; 3; 2] hospital_A) patient_P).
  - reflexivity.
  - reflexivity.
  - simpl. apply elem_of_cons. right. apply elem_of_cons. by left.
Defined.

(** [admit_patient] and [discharge_patient] touch nothing but the hospital
    they are called on and the status of the patient they are given: every
    other hospital and patient, the ambulances, the ledger and the history
    are as before, the patient keeps name, condition, severity, vital signs
    and completion time, and the status changes only when the call returns
    [True]. *)
Theorem hospital_call_touches_only_its_objects (w : World) (c : hospital_call) :
  call_live w c →
  ∃ b w' p p',
    call c w = inr (b, w') ∧
    ambulance_objs w' = ambulance_objs w ∧
    hospitals w' = hospitals w ∧ ambulances w' = ambulances w ∧
    referral_requests w' = referral_requests w ∧
    referral_history w' = referral_history w ∧
    (∀ other, other ≠ call_hospital c →
              hospital_objs w' !! other = hospital_objs w !! other) ∧
    (∀ other, other ≠ call_patient c →
              patient_objs w' !! other = patient_objs w !! other) ∧
    patient_objs w !! call_patient c = Some p ∧
    patient_objs w' !! call_patient c = Some p' ∧
    pat_name p' = pat_name p ∧ condition p' = condition p ∧
    severity p' = severity p ∧ vital_signs p' = vital_signs p ∧
    transfer_completion_time p' = transfer_completion_time p ∧
    pat_status p' = if b then call_status c else pat_status p.
Proof.
  intros Hlive.
  destruct c as [s q|s q]; simpl in *; destruct Hlive as [Hs Hq];
    apply elem_of_dom in Hs as [h Hh]; apply elem_of_dom in Hq as [p Hp].
  - destruct (Z_lt_le_dec 0 (available_beds h)) as [Hb|Hb].
    + exists true. eexists. exists p, (set_pat_status "admitted" p).
      split; [by apply admit_patient_beds|]. simpl.
      rewrite lookup_insert_eq. repeat split; try done.
      * intros other Hne. by rewrite lookup_insert_ne.
      * intros other Hne. by rewrite lookup_insert_ne.
    + exists false, w, p, p. split; [by eapply admit_patient_full|]. done.
  - destruct (decide (q ∈ referrals_received h)) as [Hin|Hin].
    + exists true. eexists. exists p, (set_pat_status "discharged" p).
      split; [by apply discharge_patient_present|]. simpl.
      rewrite lookup_insert_eq. repeat split; try done.
      * intros other Hne. by rewrite lookup_insert_ne.
      * intros other Hne. by rewrite lookup_insert_ne.
    + exists false, w, p, p. split; [by eapply discharge_patient_absent|]. done.
Qed.

Lemma hospital_call_touches_only_its_objects_witness :
  ∃ b w' p p',
    call (AdmitPatient 1 0) session1 = inr (b, w') ∧
    ambulance_objs w' = ambulance_objs session1 ∧
    hospitals w' = hospitals session1 ∧ ambulances w' = ambulances session1 ∧
    referral_requests w' = referral_requests session1 ∧
    referral_history w' = referral_history session1 ∧
    (∀ other, other ≠ 1 → hospital_objs w' !! other = hospital_objs session1 !! other) ∧
    (∀ other, other ≠ 0 → patient_objs w' !! other = patient_objs session1 !! other) ∧
    patient_objs session1 !! 0 = Some p ∧
    patient_objs w' !! 0 = Some p' ∧
    pat_name p' = pat_name p ∧ condition p' = condition p ∧
    severity p' = severity p ∧ vital_signs p' = vital_signs p ∧
    transfer_completion_time p' = transfer_completion_time p ∧
    pat_status p' = if b then "admitted" else pat_status p.
Proof.
  apply (hospital_call_touches_only_its_objects session1 (AdmitPatient 1 0)).
  split; apply elem_of_dom; eexists; reflexivity.
Defined.

(** A hospital with [b] free beds accepts exactly the first [b] of any
    run of admissions and refuses all the later ones; the accepted patients
    are appended in order and [available_beds] ends at [b] minus their
    number (a hospital with no free bed, or a negative count, accepts
    none). *)
Theorem admissions_stop_when_full
    (w : World) (self : ref) (h : Hospital) (ps : list ref) :
  hospital_objs w !! self = Some h →
  Forall (λ p, p ∈ dom (patient_objs w)) ps →
  let b := Z.to_nat (available_beds h) in
  let n := length ps in
  ∃ w' h',
    calls (map (AdmitPatient self) ps) w
      = inr (replicate (b `min` n) true ++ replicate (n - b) false, w') ∧
    hospital_objs w' !! self = Some h' ∧
    available_beds h' = (available_beds h - Z.of_nat (b `min` n))%Z ∧
    referrals_received h' = referrals_received h ++ take b ps.
Proof.
  revert w h. induction ps as [|p ps IH]; intros w h Hh Hlive b n.
  - exists w, h. subst b n. simpl. rewrite Nat.min_0_r. simpl.
    rewrite take_nil, app_nil_r. repeat split; try done. lia.
  - apply Forall_cons in Hlive as [Hp Hps]. pose proof Hp as Hp'.
    apply elem_of_dom in Hp' as [pat Hpat].
    destruct (Z_lt_le_dec 0 (available_beds h)) as [Hb|Hb].
    + destruct (IH (with_patient_objs (insert p (set_pat_status "admitted" pat))
                      (with_hospital_objs (insert self (admitted p h)) w))
                   (admitted p h)) as (w' & h' & Hrun & Hh' & Hbeds & Hlist).
      { simpl. apply lookup_insert_eq. }
      { eapply Forall_impl; [exact Hps|]. intros q Hq. simpl.
        rewrite dom_insert_lookup_L by eauto. exact Hq. }
      exists w', h'. simpl map. simpl calls.
      rewrite (bind_inr _ _ _ _ _ (admit_patient_beds _ _ _ _ _ Hh Hpat Hb)).
      rewrite (bind_inr _ _ _ _ _ Hrun).
      simpl in Hbeds, Hlist. subst b n. simpl length.
      replace (Z.to_nat (available_beds h))
        with (S (Z.to_nat (available_beds h - 1))) by lia.
      simpl. rewrite Hlist, <- app_assoc. simpl.
      repeat split; try done. lia.
    + destruct (IH w h Hh Hps) as (w' & h' & Hrun & Hh' & Hbeds & Hlist).
      exists w', h'. simpl map. simpl calls.
      rewrite (bind_inr _ _ _ _ _ (admit_patient_full _ _ p _ Hh Hb)).
      rewrite (bind_inr _ _ _ _ _ Hrun).
      subst b n. simpl length.
      replace (Z.to_nat (available_beds h)) with 0%nat in * by lia.
      simpl in *. rewrite Nat.sub_0_r in Hrun. rewrite Nat.sub_0_r.
      by repeat split.
Qed.

Lemma admissions_stop_when_full_witness :
  ∃ w' h',
    calls (map (AdmitPatient 1) [0; 0; 0]) session0
      = inr (replicate (2 `min` 3) true ++ replicate (3 - 2) false, w') ∧
    hospital_objs w' !! 1 = Some h' ∧
    available_beds h' = (2 - Z.of_nat (2 `min` 3))%Z ∧
    referrals_received h' = [] ++ take 2 [0; 0; 0].
Proof.
  apply (admissions_stop_when_full session0 1 hospital_B [0; 0; 0]).
  - reflexivity.
  - repeat constructor.
Defined.

(** ** Referral ledger: ids, frames and round trips *)

Lemma find_referral_first referral_id l i r :
  l !! i = Some r →
  ref_id r = referral_id →
  (∀ j r', j < i → l !! j = Some r' → ref_id r' ≠ referral_id) →
  find_referral referral_id l = Some i.
Proof.
  revert i. induction l as [|r0 l IH]; intros i Hi Hid Hbefore; [done|].
  destruct i as [|i]; simpl in *.
  - injection Hi as ->. apply Z.eqb_eq in Hid. by rewrite Hid.
  - assert (ref_id r0 ≠ referral_id) as Hne by (apply (Hbefore 0 r0); [lia|done]).
    apply Z.eqb_neq in Hne. rewrite Hne.
    rewrite (IH i); [done|done|done|].
    intros j r' Hj. apply (Hbefore (S j)). lia.
Qed.

Lemma ledger_ids_find w referral_id :
  ledger_ids w →
  (1 ≤ referral_id ≤ Z.of_nat (length (referral_requests w)))%Z →
  find_referral referral_id (referral_requests w)
    = Some (Z.to_nat (referral_id - 1)).
Proof.
  intros Hids Hrange.
  destruct (lookup_lt_is_Some_2 (referral_requests w) (Z.to_nat (referral_id - 1)))
    as [r Hr]; [lia|].
  apply (find_referral_first _ _ _ r Hr).
  - rewrite (Hids _ _ Hr). lia.
  - intros j r' Hj Hr'. rewrite (Hids _ _ Hr'). lia.
Qed.

Section LedgerFurther.
Variable wall_clock : nat → datetime.

(** In a ledger whose records carry their position plus one as id,
    [complete_referral] fails, and changes nothing, exactly on the ids
    outside [1 .. len]; an id inside that range names the record at position
    [id - 1], and that is the one the lookup of [complete_referral] finds. *)
Theorem complete_referral_valid_ids (w : World) (referral_id : Z) :
  ledger_ids w →
  let n := Z.of_nat (length (referral_requests w)) in
  ((referral_id < 1 ∨ n < referral_id)%Z →
     complete_referral wall_clock referral_id w = inr (None, w)) ∧
  ((1 ≤ referral_id ≤ n)%Z →
     ∃ r, referral_requests w !! Z.to_nat (referral_id - 1) = Some r ∧
          ref_id r = referral_id ∧
          find_referral referral_id (referral_requests w)
            = Some (Z.to_nat (referral_id - 1)) ∧
          complete_referral wall_clock referral_id w ≠ inr (None, w)).
Proof.
  intros Hids n. split.
  - intros Hout. unfold complete_referral.
    erewrite bind_inr; [|reflexivity].
    rewrite find_referral_None; [done|].
    intros r (i & Hi)%list_elem_of_lookup_1. rewrite (Hids _ _ Hi).
    apply lookup_lt_Some in Hi. subst n. lia.
  - intros Hin.
    destruct (lookup_lt_is_Some_2 (referral_requests w) (Z.to_nat (referral_id - 1)))
      as [r Hr]; [subst n; lia|].
    pose proof (ledger_ids_find w referral_id Hids Hin) as Hfind.
    exists r. split; [done|]. split; [rewrite (Hids _ _ Hr); lia|].
    split; [done|].
    intros Hrun. apply complete_referral_inv in Hrun as Hsame.
    unfold complete_referral in Hrun.
    apply bind_inv in Hrun as (w0 & w0' & [= <- <-] & Hrun).
    rewrite Hfind in Hrun.
    apply bind_inv in Hrun as (r1 & w1 & _ & Hrun).
    apply bind_inv in Hrun as (u & w2 & _ & Hrun).
    apply bind_inv in Hrun as (u2 & w3 & _ & Hrun).
    apply bind_inv in Hrun as (t & w4 & _ & Hrun).
    apply bind_inv in Hrun as (r2 & w5 & _ & Hrun).
    apply bind_inv in Hrun as (pp & w6 & _ & Hrun).
    apply bind_inv in Hrun as (fh & w7 & _ & Hrun).
    apply bind_inv in Hrun as (th & w8 & _ & Hrun).
    apply bind_inv in Hrun as (a & w9 & _ & Hrun).
    apply bind_inv in Hrun as (u3 & w10 & _ & Hrun).
    discriminate Hrun.
Qed.

End LedgerFurther.

Lemma session1_ledger_ids : ledger_ids session1.
Proof.
  intros i r. change (referral_requests session1) with [referral_1].
  destruct i as [|i]; [|done]. by intros [= <-].
Qed.

Lemma complete_referral_valid_ids_witness :
  complete_referral clock_minutes 2 session1 = inr (None, session1) ∧
  ∃ r, referral_requests session1 !! Z.to_nat (1 - 1) = Some r ∧
       ref_id r = 1%Z ∧
       find_referral 1 (referral_requests session1) = Some (Z.to_nat (1 - 1)) ∧
       complete_referral clock_minutes 1 session1 ≠ inr (None, session1).
Proof.
  split.
  - apply (proj1 (complete_referral_valid_ids clock_minutes session1 2
                    session1_ledger_ids)).
    change (referral_requests session1) with [referral_1]. simpl. lia.
  - apply (proj2 (complete_referral_valid_ids clock_minutes session1 1
                    session1_ledger_ids)).
    change (referral_requests session1) with [referral_1]. simpl. lia.
Defined.

Lemma first_available_same_fleet l w res w1 :
  first_available l w = inr (res, w) →
  ambulance_objs w1 = ambulance_objs w →
  first_available l w1 = inr (res, w1).
Proof.
  intros Hrun Hobjs. induction l as [|r l IH]; simpl in *.
  - by injection Hrun as <-.
  - apply bind_inv in Hrun as (a & w2 & [Ha ->]%deref_inr & Hrun).
    unfold ambulance_get. erewrite bind_inr; [|apply deref_Some; by rewrite Hobjs].
    destruct (String.eqb _ _); [by injection Hrun as <-|by apply IH].
Qed.

Lemma first_available_app l new w res a_new :
  first_available l w = inr (res, w) →
  ambulance_objs w !! new = Some a_new →
  first_available (l ++ [new]) w
    = inr (match res with
           | Some a => Some a
           | None => if String.eqb (amb_status a_new) "available"
                     then Some new else None
           end, w).
Proof.
  intros Hrun Hnew. induction l as [|r l IH]; simpl in *.
  - injection Hrun as <-. unfold ambulance_get.
    erewrite bind_inr; [|by apply deref_Some]. by destruct (String.eqb _ _).
  - apply bind_inv in Hrun as (a & w2 & [Ha ->]%deref_inr & Hrun).
    unfold ambulance_get. erewrite bind_inr; [|by apply deref_Some].
    destruct (String.eqb _ _); [by injection Hrun as <-|by apply IH].
Qed.

Section LedgerFrames.
Variable wall_clock : nat → datetime.

(** Registering one more ambulance puts it last in the search order: an
    ambulance that first-fit found before is still the one found, and the
    newcomer is found only when no earlier ambulance is "available" and it
    is "available" itself. *)
Theorem add_ambulance_goes_last (w : World) (new : ref) (a_new : Ambulance) :
  fleet_live w →
  ambulance_objs w !! new = Some a_new →
  ∃ res w1,
    find_available_ambulance w = inr (res, w) ∧
    add_ambulance new w = inr (tt, w1) ∧
    ambulances w1 = ambulances w ++ [new] ∧
    find_available_ambulance w1
      = inr (match res with
             | Some a => Some a
             | None => if String.eqb (amb_status a_new) "available"
                       then Some new else None
             end, w1).
Proof.
  intros Hlive Hnew.
  destruct (first_available_total w _ Hlive) as [res Hres].
  exists res. eexists. split; [|split; [reflexivity|split; [reflexivity|]]].
  - unfold find_available_ambulance. by erewrite bind_inr; [|reflexivity].
  - unfold find_available_ambulance. erewrite bind_inr; [|reflexivity].
    simpl ambulances.
    apply (first_available_same_fleet _ w); [|done].
    by apply first_available_app.
Qed.

(** [create_referral] never looks at or changes a hospital or a patient,
    the history or the registration lists: whatever the arguments, on an
    existing fleet it returns, and of the ambulances it changes at most the
    status, patient and destination of one, never an id, a location, a
    route or an ETA. *)
Theorem create_referral_leaves_the_rest
    (w : World) (patient from_hospital to_hospital : ref) (ambulance : option ref) :
  fleet_live w →
  (∀ amb, ambulance = Some amb → amb ∈ dom (ambulance_objs w)) →
  ∃ res w',
    create_referral wall_clock patient from_hospital to_hospital ambulance w
      = inr (res, w') ∧
    hospital_objs w' = hospital_objs w ∧
    patient_objs w' = patient_objs w ∧
    referral_history w' = referral_history w ∧
    hospitals w' = hospitals w ∧ ambulances w' = ambulances w ∧
    ∀ k a, ambulance_objs w !! k = Some a →
      ∃ a', ambulance_objs w' !! k = Some a' ∧
            amb_id a' = amb_id a ∧ amb_location a' = amb_location a ∧
            route a' = route a ∧ eta a' = eta a.
Proof.
  intros Hlive Hsup.
  assert (∀ amb a, ambulance_objs w !! amb = Some a →
            ∃ res w',
              create_referral wall_clock patient from_hospital to_hospital
                (Some amb) w = inr (res, w') ∧
              hospital_objs w' = hospital_objs w ∧
              patient_objs w' = patient_objs w ∧
              referral_history w' = referral_history w ∧
              hospitals w' = hospitals w ∧ ambulances w' = ambulances w ∧
              ∀ k a, ambulance_objs w !! k = Some a →
                ∃ a', ambulance_objs w' !! k = Some a' ∧
                      amb_id a' = amb_id a ∧ amb_location a' = amb_location a ∧
                      route a' = route a ∧ eta a' = eta a) as Hgo.
  { intros amb a Ha. do 2 eexists.
    split; [by apply create_referral_supplied|]. simpl.
    repeat split; try done. intros k b Hb.
    destruct (decide (k = amb)) as [->|Hne].
    - rewrite lookup_insert_eq. assert (b = a) as -> by congruence.
      by eexists.
    - rewrite lookup_insert_ne by done. by exists b. }
  destruct ambulance as [amb|].
  - pose proof (Hsup amb eq_refl) as Hd. apply elem_of_dom in Hd as [a Ha].
    by apply (Hgo amb a).
  - destruct (first_available_total w _ Hlive) as [res Hres].
    rewrite (create_referral_search _ _ _ _ _ _ Hres).
    destruct res as [amb|].
    + apply first_available_sound in Hres as (_ & _ & a & Ha & _).
      by apply (Hgo amb a).
    + exists None, w. repeat split; try done. intros k a Ha. by exists a.
Qed.

(** A referral created and then completed under the id it was given is a
    round trip for an ambulance that was at rest: both calls succeed, every
    ambulance object is exactly what it was, no hospital has changed, the
    ledger has one more record, "completed", the history one more row,
    and the patient carries the completion time. *)
Theorem create_then_complete_round_trip
    (w w1 : World) (patient from_hospital to_hospital : ref)
    (ambulance : option ref) (r : Referral) (a : Ambulance) (pat : Patient)
    (fh th : Hospital) :
  ledger_ids w →
  create_referral wall_clock patient from_hospital to_hospital ambulance w
    = inr (Some r, w1) →
  ambulance_objs w !! ref_ambulance r = Some a →
  at_rest a →
  patient_objs w !! patient = Some pat →
  hospital_objs w !! from_hospital = Some fh →
  hospital_objs w !! to_hospital = Some th →
  ∃ w2 row,
    complete_referral wall_clock (ref_id r) w1
      = inr (Some (set_ref_status "completed" r), w2) ∧
    ambulance_objs w2 = ambulance_objs w ∧
    hospital_objs w2 = hospital_objs w ∧
    referral_requests w2
      = referral_requests w ++ [set_ref_status "completed" r] ∧
    referral_history w2 = referral_history w ++ [row] ∧
    row_Patient row = pat_name pat ∧ row_Ambulance row = amb_id a ∧
    patient_objs w2
      = <[patient := set_transfer_completion_time
                       (Some (wall_clock (S (clock_reads w)))) pat]>
          (patient_objs w).
Proof.
  intros Hids Hcreate Ha Hrest Hpat Hfh Hth.
  apply create_referral_inv in Hcreate as (a0 & Ha0 & Hr & ->).
  assert (a0 = a) as -> by congruence.
  set (n := length (referral_requests w)).
  assert (ref_id r = (Z.of_nat n + 1)%Z) as Hid by (by rewrite Hr).
  assert (ref_patient r = patient ∧ ref_from_hospital r = from_hospital ∧
          ref_to_hospital r = to_hospital) as (Hrp & Hrf & Hrt) by (by rewrite Hr).
  assert (find_referral (ref_id r) (referral_requests (referred_world r a w)) = Some n)
    as Hfind.
  { apply (find_referral_first _ _ _ r).
    - simpl. by rewrite lookup_app_r, Nat.sub_diag.
    - done.
    - intros j r' Hj. simpl. rewrite lookup_app_l by done.
      intros Hr'. rewrite (Hids _ _ Hr'), Hid. lia. }
  erewrite (complete_referral_run wall_clock (referred_world r a w) _ n r
              (dispatched (ref_patient r) (ref_to_hospital r) a) pat fh th Hfind).
  - do 2 eexists. split; [reflexivity|].
    destruct (completed_world_fields wall_clock (referred_world r a w) n r
                (dispatched (ref_patient r) (ref_to_hospital r) a)
                (history_row r pat fh th
                   (dispatched (ref_patient r) (ref_to_hospital r) a)
                   (wall_clock (clock_reads
                      (stamp_carried wall_clock
                         (dispatched (ref_patient r) (ref_to_hospital r) a)
                         (referred_world r a w))))))
      as (-> & -> & -> & -> & -> & _).
    destruct Hrest as (Hst & Hcur & Hdest).
    assert (released (dispatched (ref_patient r) (ref_to_hospital r) a) = a) as ->.
    { destruct a; simpl in *. unfold released, dispatched; simpl. by subst. }
    simpl. rewrite insert_insert_eq, (insert_id _ _ _ Ha).
    rewrite alter_app_r_alt, Nat.sub_diag by done. simpl.
    unfold stamp_carried. simpl. rewrite Hrp, Hpat. simpl.
    by repeat split.
  - simpl. by rewrite lookup_app_r, Nat.sub_diag.
  - simpl. apply lookup_insert_eq.
  - simpl. intros q [= <-]. rewrite Hrp. apply elem_of_dom. by eexists.
  - simpl. by rewrite Hrp.
  - simpl. by rewrite Hrf.
  - simpl. by rewrite Hrt.
Qed.

End LedgerFrames.

Section LedgerStamps.
Variable wall_clock : nat → datetime.

(** The completion time goes to whoever the ambulance carries, not to the
    patient of the referral: when [complete_referral] succeeds, the only
    patient object it changes is the ambulance's current patient, so a
    referral whose ambulance has been released or sent out again leaves its
    own patient as it was; with nobody on board no patient changes and the
    clock is read once instead of twice. *)
Theorem complete_referral_stamps_whom_it_carries
    (w : World) (referral_id : Z) (i : nat) (r : Referral)
    (a : Ambulance) (pat : Patient) (fh th : Hospital) :
  find_referral referral_id (referral_requests w) = Some i →
  referral_requests w !! i = Some r →
  ambulance_objs w !! ref_ambulance r = Some a →
  (∀ q, current_patient a = Some q → q ∈ dom (patient_objs w)) →
  patient_objs w !! ref_patient r = Some pat →
  hospital_objs w !! ref_from_hospital r = Some fh →
  hospital_objs w !! ref_to_hospital r = Some th →
  ∃ w',
    complete_referral wall_clock referral_id w
      = inr (Some (set_ref_status "completed" r), w') ∧
    match current_patient a with
    | None =>
        patient_objs w' = patient_objs w ∧ clock_reads w' = S (clock_reads w)
    | Some q =>
        (∃ qp, patient_objs w !! q = Some qp ∧
               patient_objs w'
                 = <[q := set_transfer_completion_time
                            (Some (wall_clock (clock_reads w))) qp]> (patient_objs w)) ∧
        (q ≠ ref_patient r → patient_objs w' !! ref_patient r = Some pat) ∧
        clock_reads w' = S (S (clock_reads w))
    end.
Proof.
  intros Hfind Hi Ha Hcar Hpat Hfh Hth.
  rewrite (complete_referral_run _ _ _ _ _ _ _ _ _ Hfind Hi Ha Hcar Hpat Hfh Hth).
  eexists. split; [reflexivity|].
  unfold completed_world, stamp_carried. simpl.
  destruct (current_patient a) as [q|] eqn:Hcur; [|done].
  pose proof (Hcar q eq_refl) as Hd. apply elem_of_dom in Hd as [qp Hqp].
  rewrite Hqp. simpl. split; [by exists qp|]. split; [|done].
  intros Hne. by rewrite lookup_insert_ne.
Qed.

End LedgerStamps.

Lemma complete_referral_stamps_whom_it_carries_witness :
  ∃ w',
    complete_referral clock_minutes 1 session1
      = inr (Some (set_ref_status "completed" referral_1), w') ∧
    (∃ qp, patient_objs session1 !! 0 = Some qp ∧
           patient_objs w'
             = <[0 := set_transfer_completion_time (Some (clock_minutes 1)) qp]>
                 (patient_objs session1)) ∧
    (0 ≠ ref_patient referral_1 → patient_objs w' !! ref_patient referral_1 = Some patient_P) ∧
    clock_reads w' = S (S (clock_reads session1)).
Proof.
  apply (complete_referral_stamps_whom_it_carries clock_minutes session1 1 0
           referral_1 amb1_out patient_P hospital_A hospital_B).
  - reflexivity.
  - reflexivity.
  - reflexivity.
  - intros q Hq. injection Hq as <-. apply elem_of_dom. eexists. reflexivity.
  - reflexivity.
  - reflexivity.
  - reflexivity.
Defined.

Lemma add_ambulance_goes_last_witness :
  ∃ res w1,
    find_available_ambulance session1 = inr (res, session1) ∧
    add_ambulance 0 session1 = inr (tt, w1) ∧
    ambulances w1 = ambulances session1 ++ [0] ∧
    find_available_ambulance w1
      = inr (match res with
             | Some a => Some a
             | None => if String.eqb (amb_status amb1_out) "available"
                       then Some 0 else None
             end, w1).
Proof.
  apply (add_ambulance_goes_last session1 0 amb1_out).
  - exact session1_fleet_live.
  - reflexivity.
Defined.

Lemma create_referral_leaves_the_rest_witness :
  ∃ res w',
    create_referral clock_minutes 0 0 1 (Some 0) session1 = inr (res, w') ∧
    hospital_objs w' = hospital_objs session1 ∧
    patient_objs w' = patient_objs session1 ∧
    referral_history w' = referral_history session1 ∧
    hospitals w' = hospitals session1 ∧ ambulances w' = ambulances session1 ∧
    ∀ k a, ambulance_objs session1 !! k = Some a →
      ∃ a', ambulance_objs w' !! k = Some a' ∧
            amb_id a' = amb_id a ∧ amb_location a' = amb_location a ∧
            route a' = route a ∧ eta a' = eta a.
Proof.
  apply (create_referral_leaves_the_rest clock_minutes session1 0 0 1 (Some 0)).
  - exact session1_fleet_live.
  - intros amb Hamb. injection Hamb as <-. apply elem_of_dom. eexists. reflexivity.
Defined.

Lemma session0_ledger_ids : ledger_ids session0.
Proof. intros i r Hi. destruct i; discriminate Hi. Qed.

Lemma create_then_complete_round_trip_witness :
  ∃ w2 row,
    complete_referral clock_minutes (ref_id referral_1) session1
      = inr (Some (set_ref_status "completed" referral_1), w2) ∧
    ambulance_objs w2 = ambulance_objs session0 ∧
    hospital_objs w2 = hospital_objs session0 ∧
    referral_requests w2
      = referral_requests session0 ++ [set_ref_status "completed" referral_1] ∧
    referral_history w2 = referral_history session0 ++ [row] ∧
    row_Patient row = pat_name patient_P ∧
    row_Ambulance row = amb_id (Ambulance_init "AMB1" kisumu) ∧
    patient_objs w2
      = <[0 := set_transfer_completion_time
                 (Some (clock_minutes (S (clock_reads session0)))) patient_P]>
          (patient_objs session0).
Proof.
  apply (create_then_complete_round_trip clock_minutes session0 session1 0 0 1 None
           referral_1 (Ambulance_init "AMB1" kisumu) patient_P hospital_A hospital_B).
  - exact session0_ledger_ids.
  - vm_compute. reflexivity.
  - reflexivity.
  - repeat split.
  - reflexivity.
  - reflexivity.
  - reflexivity.
Defined.

(** ** Sessions: what every sequence of core operations keeps *)

Section SessionsFurther.
Variable wall_clock : nat → datetime.
Variable rng : nat → float.
Variable geodesic_km : location → location → exn + float.
Variable plus_minutes : datetime → float → exn + datetime.

Lemma stamp_carried_keeps w a k p :
  patient_objs w !! k = Some p →
  ∃ p', patient_objs (stamp_carried wall_clock a w) !! k = Some p' ∧
        pat_name p' = pat_name p ∧ condition p' = condition p ∧
        severity p' = severity p ∧ vital_signs p' = vital_signs p ∧
        pat_status p' = pat_status p.
Proof.
  intros Hp. unfold stamp_carried.
  destruct (current_patient a) as [q|]; [|by exists p].
  destruct (patient_objs w !! q) as [qp|] eqn:Hq; [|by exists p]. simpl.
  destruct (decide (q = k)) as [->|Hne].
  - rewrite lookup_insert_eq. assert (qp = p) as -> by congruence. by eexists.
  - rewrite lookup_insert_ne by done. by exists p.
Qed.

Lemma same_referral_refl r : same_referral r r.
Proof. by repeat split. Qed.

Lemma run_op_ledger_ids w o w1 :
  ledger_ids w →
  run_op wall_clock rng geodesic_km plus_minutes o w = inr (tt, w1) → ledger_ids w1.
Proof.
  intros Hids Hrun.
  destruct o as [p f t amb|referral_id|amb dest speed]; simpl in Hrun;
    apply bind_inv in Hrun as (res & w2 & Hrun & [= <-]).
  - apply create_referral_inv in Hrun.
    destruct res as [r|]; [|by subst].
    destruct Hrun as (a & _ & Hr & ->). intros i r'. simpl.
    destruct (decide (i < length (referral_requests w))) as [Hlt|Hge].
    + rewrite lookup_app_l by done. apply Hids.
    + rewrite lookup_app_r by lia.
      destruct (i - length (referral_requests w)) as [|j] eqn:Hj; [|done].
      intros [= <-]. rewrite Hr. simpl. lia.
  - apply complete_referral_inv in Hrun.
    destruct res as [r'|]; [|by subst].
    destruct Hrun as (i & r & a & row & _ & _ & -> & _). intros j r2.
    destruct (completed_world_fields wall_clock w i r a row) as (_ & _ & -> & _).
    rewrite list_lookup_alter.
    destruct (decide (i = j)) as [->|Hne].
    + destruct (referral_requests w !! j) as [r3|] eqn:Hr3; [|done].
      intros [= <-]. simpl. by apply Hids.
    + apply Hids.
  - apply simulate_movement_inv in Hrun as (a & e & pts & _ & _ & _ & _ & Hreq & _).
    intros i r. rewrite Hreq. apply Hids.
Qed.

Lemma run_op_ledger_kept w o w1 :
  run_op wall_clock rng geodesic_km plus_minutes o w = inr (tt, w1) → ledger_kept w w1.
Proof.
  intros Hrun.
  destruct o as [p f t amb|referral_id|amb dest speed]; simpl in Hrun;
    apply bind_inv in Hrun as (res & w2 & Hrun & [= <-]).
  - apply create_referral_inv in Hrun. intros i r Hi.
    destruct res as [r0|]; [|subst; exists r; by split; [|split; [apply same_referral_refl|]]].
    destruct Hrun as (a & _ & _ & ->). exists r. simpl.
    rewrite lookup_app_l by (by eapply lookup_lt_Some).
    split; [done|]. split; [apply same_referral_refl|done].
  - apply complete_referral_inv in Hrun. intros j r2 Hj.
    destruct res as [r'|]; [|subst; exists r2; by split; [|split; [apply same_referral_refl|]]].
    destruct Hrun as (i & r & a & row & _ & _ & -> & _).
    destruct (completed_world_fields wall_clock w i r a row) as (_ & _ & -> & _).
    rewrite list_lookup_alter. destruct (decide (i = j)) as [->|Hne].
    + rewrite Hj. simpl. eexists. split; [done|]. by repeat split.
    + exists r2. split; [done|]. split; [apply same_referral_refl|done].
  - apply simulate_movement_inv in Hrun as (a & e & pts & _ & _ & _ & _ & Hreq & _).
    intros i r Hi. exists r. rewrite Hreq.
    split; [done|]. split; [apply same_referral_refl|done].
Qed.

Lemma run_op_history_grows w o w1 :
  run_op wall_clock rng geodesic_km plus_minutes o w = inr (tt, w1) →
  referral_history w `prefix_of` referral_history w1.
Proof.
  intros Hrun.
  destruct o as [p f t amb|referral_id|amb dest speed]; simpl in Hrun;
    apply bind_inv in Hrun as (res & w2 & Hrun & [= <-]).
  - apply create_referral_inv in Hrun.
    destruct res as [r0|]; [|by subst]. by destruct Hrun as (a & _ & _ & ->).
  - apply complete_referral_inv in Hrun.
    destruct res as [r'|]; [|by subst].
    destruct Hrun as (i & r & a & row & _ & _ & -> & _).
    destruct (completed_world_fields wall_clock w i r a row) as (_ & _ & _ & -> & _).
    by apply prefix_app_r.
  - apply simulate_movement_inv in Hrun as (a & e & pts & _ & _ & _ & _ & _ & Hh & _).
    by rewrite Hh.
Qed.

Lemma entities_kept_refl w : entities_kept w w.
Proof.
  split; [done|]. split; [intros k a Ha; by exists a|intros k p Hp; by exists p].
Qed.

Lemma entities_kept_trans w1 w2 w3 :
  entities_kept w1 w2 → entities_kept w2 w3 → entities_kept w1 w3.
Proof.
  intros (Hh1 & Ha1 & Hp1) (Hh2 & Ha2 & Hp2). split; [congruence|]. split.
  - intros k a Ha. destruct (Ha1 k a Ha) as (a' & Ha' & ? & ?).
    destruct (Ha2 k a' Ha') as (a'' & Ha'' & ? & ?).
    exists a''. split; [done|]. split; congruence.
  - intros k p Hp. destruct (Hp1 k p Hp) as (p' & Hp' & ? & ? & ? & ? & ?).
    destruct (Hp2 k p' Hp') as (p'' & Hp'' & ? & ? & ? & ? & ?).
    exists p''. split; [done|]. repeat split; congruence.
Qed.

Lemma run_op_entities_kept w o w1 :
  run_op wall_clock rng geodesic_km plus_minutes o w = inr (tt, w1) → entities_kept w w1.
Proof.
  intros Hrun.
  destruct o as [p f t amb|referral_id|amb dest speed]; simpl in Hrun;
    apply bind_inv in Hrun as (res & w2 & Hrun & [= <-]).
  - apply create_referral_inv in Hrun.
    destruct res as [r0|]; [|subst; apply entities_kept_refl].
    destruct Hrun as (a & Ha & _ & ->). split; [done|]. split.
    + intros k b Hb. simpl. destruct (decide (k = ref_ambulance r0)) as [->|Hne].
      * rewrite lookup_insert_eq. assert (b = a) as -> by congruence. by eexists.
      * rewrite lookup_insert_ne by done. by exists b.
    + intros k q Hq. by exists q.
  - apply complete_referral_inv in Hrun.
    destruct res as [r'|]; [|subst; apply entities_kept_refl].
    destruct Hrun as (i & r & a & row & _ & Ha & -> & _).
    unfold entities_kept.
    destruct (completed_world_fields wall_clock w i r a row)
      as (-> & -> & _ & _ & -> & _).
    split; [done|]. split.
    + intros k b Hb. destruct (decide (k = ref_ambulance r)) as [->|Hne].
      * rewrite lookup_insert_eq. assert (b = a) as -> by congruence. by eexists.
      * rewrite lookup_insert_ne by done. by exists b.
    + intros k q Hq. by apply stamp_carried_keeps.
  - apply simulate_movement_inv in Hrun as (a & e & pts & Ha & Hobjs & Hh & Hp & _).
    split; [done|]. split.
    + intros k b Hb. rewrite Hobjs. destruct (decide (k = amb)) as [->|Hne].
      * rewrite lookup_insert_eq. assert (b = a) as -> by congruence. by eexists.
      * rewrite lookup_insert_ne by done. by exists b.
    + intros k q Hq. rewrite Hp. by exists q.
Qed.

(** Referral ids follow the ledger: if record number [i] carries id
    [i + 1] (as in an empty ledger), it still does after any sequence of
    [create_referral], [complete_referral] and [simulate_movement] calls,
    whatever they are applied to, so ids stay distinct and count up from 1
    in creation order. *)
Theorem referral_ids_count_up (w w' : World) :
  ledger_ids w →
  runs wall_clock rng geodesic_km plus_minutes w w' →
  ledger_ids w' ∧
  ∀ i j r r', referral_requests w' !! i = Some r →
              referral_requests w' !! j = Some r' →
              ref_id r = ref_id r' → i = j.
Proof.
  intros Hids Hreach.
  assert (ledger_ids w') as Hids'.
  { induction Hreach as [w|w o w1 w2 Hrun _ IH]; [done|].
    apply IH. by eapply run_op_ledger_ids. }
  split; [done|]. intros i j r r' Hi Hj.
  rewrite (Hids' _ _ Hi), (Hids' _ _ Hj). lia.
Qed.

(** The ledger forgets nothing: after any sequence of core operations
    every record is still at its position with the same id, patient,
    hospitals, ambulance and timestamp, and a record that was "completed"
    is still "completed". *)
Theorem ledger_records_are_kept (w w' : World) :
  runs wall_clock rng geodesic_km plus_minutes w w' → ledger_kept w w'.
Proof.
  intros Hreach. induction Hreach as [w|w o w1 w2 Hrun _ IH].
  - intros i r Hi. exists r. split; [done|]. split; [apply same_referral_refl|done].
  - intros i r Hi.
    destruct (run_op_ledger_kept _ _ _ Hrun i r Hi) as (r1 & Hi1 & Hsame1 & Hst1).
    destruct (IH i r1 Hi1) as (r2 & Hi2 & Hsame2 & Hst2).
    exists r2. split; [done|]. split; [|by intros ?; apply Hst2, Hst1].
    destruct Hsame1 as (?&?&?&?&?&?), Hsame2 as (?&?&?&?&?&?).
    repeat split; congruence.
Qed.

(** The history is append-only: after any sequence of core operations the
    rows that were there are the first rows, unchanged and in order. *)
Theorem history_is_append_only (w w' : World) :
  runs wall_clock rng geodesic_km plus_minutes w w' →
  referral_history w `prefix_of` referral_history w'.
Proof.
  intros Hreach. induction Hreach as [w|w o w1 w2 Hrun _ IH]; [done|].
  etrans; [by eapply run_op_history_grows|done].
Qed.

(** Referrals and the tracker never admit, discharge or move anything:
    after any sequence of [create_referral], [complete_referral] and
    [simulate_movement] calls every hospital object is unchanged (beds
    included), every ambulance has its id and its location, and every
    patient has name, condition, severity, vital signs and status as
    before. *)
Theorem sessions_keep_entities (w w' : World) :
  runs wall_clock rng geodesic_km plus_minutes w w' → entities_kept w w'.
Proof.
  intros Hreach. induction Hreach as [w|w o w1 w2 Hrun _ IH].
  - apply entities_kept_refl.
  - eapply entities_kept_trans; [by eapply run_op_entities_kept|done].
Qed.

(** With a wall clock that is never set back, no history row ever
    completes before it was requested: if that holds of the rows present
    and the ledger was stamped by the clock (both true of an empty system),
    it holds after any sequence of core operations, whatever they are
    applied to. *)
Theorem history_stays_ordered (w w' : World) :
  clock_monotone wall_clock →
  ledger_timed wall_clock w →
  history_ordered w →
  runs wall_clock rng geodesic_km plus_minutes w w' →
  history_ordered w'.
Proof.
  intros Hmono Htimed Hord Hruns.
  induction Hruns as [w|w o w1 w2 Hrun _ IH]; [done|].
  apply IH; [by eapply run_op_ledger_timed|by eapply run_op_history_ordered].
Qed.

End SessionsFurther.

(** ** The further properties on the small session *)

Lemma session0_runs_detour3 :
  runs clock_minutes rng_half geodesic_30 plus_minutes_exact session0 detour3.
Proof.
  apply (runs_next _ _ _ _ session0 (SimulateMovement 0 siaya 60) detour1);
    [vm_compute; reflexivity|].
  apply (runs_next _ _ _ _ detour1 (CreateReferral 0 0 1 (Some 0)) detour2);
    [vm_compute; reflexivity|].
  apply (runs_next _ _ _ _ detour2 (CompleteReferral 1) detour3);
    [vm_compute; reflexivity|].
  apply runs_here.
Qed.

Lemma detour2_runs_detour3 :
  runs clock_minutes rng_half geodesic_30 plus_minutes_exact detour2 detour3.
Proof.
  apply (runs_next _ _ _ _ detour2 (CompleteReferral 1) detour3);
    [vm_compute; reflexivity|].
  apply runs_here.
Qed.

Lemma history_stays_ordered_witness : history_ordered detour3.
Proof.
  apply (history_stays_ordered clock_minutes rng_half geodesic_30
           plus_minutes_exact session0 detour3).
  - exact clock_minutes_monotone.
  - intros r Hr. apply elem_of_nil in Hr. destruct Hr.
  - intros row Hrow. apply elem_of_nil in Hrow. destruct Hrow.
  - exact session0_runs_detour3.
Defined.

Lemma referral_ids_count_up_witness :
  ledger_ids detour3 ∧
  ∀ i j r r', referral_requests detour3 !! i = Some r →
              referral_requests detour3 !! j = Some r' →
              ref_id r = ref_id r' → i = j.
Proof.
  apply (referral_ids_count_up clock_minutes rng_half geodesic_30
           plus_minutes_exact session0 detour3).
  - exact session0_ledger_ids.
  - exact session0_runs_detour3.
Defined.

Lemma ledger_records_are_kept_witness : ledger_kept detour2 detour3.
Proof.
  apply (ledger_records_are_kept clock_minutes rng_half geodesic_30
           plus_minutes_exact detour2 detour3).
  exact detour2_runs_detour3.
Defined.

Lemma history_is_append_only_witness :
  referral_history session0 `prefix_of` referral_history detour3.
Proof.
  apply (history_is_append_only clock_minutes rng_half geodesic_30
           plus_minutes_exact session0 detour3).
  exact session0_runs_detour3.
Defined.

Lemma sessions_keep_entities_witness : entities_kept session0 detour3.
Proof.
  apply (sessions_keep_entities clock_minutes rng_half geodesic_30
           plus_minutes_exact session0 detour3).
  exact session0_runs_detour3.
Defined.

(** ** Movement simulator: effect, errors and counts *)

Section TrackerFurther.
Variable wall_clock : nat → datetime.
Variable rng : nat → float.
Variable geodesic_km : location → location → exn + float.
Variable plus_minutes : datetime → float → exn + datetime.

(** What a successful [simulate_movement] does.  When [geopy] gives the
    distance [d] for an existing ambulance, the speed is not zero and
    [now + timedelta(minutes = d / speed * 60)] is the datetime [arrival],
    the call returns [d] and [arrival], stores [arrival] as ETA and the
    six points of a fresh [generate_route] as route, and sets the status to
    "en_route"; the ambulance keeps its id, location, patient and
    destination (it is not moved), nothing else in the world changes, and
    the clock is read once and the generator twelve times. *)
Theorem simulate_movement_effect
    (w : World) (ambulance : ref) (dest_loc : location) (speed_kmh : float)
    (a : Ambulance) (d : float) (arrival : datetime) :
  ambulance_objs w !! ambulance = Some a →
  geodesic_km (amb_location a) dest_loc = inr d →
  (speed_kmh =? 0)%float = false →
  plus_minutes (wall_clock (clock_reads w)) (d / speed_kmh * 60)%float
    = inr arrival →
  ∃ w' pts,
    simulate_movement wall_clock rng geodesic_km plus_minutes
      ambulance dest_loc speed_kmh w = inr ((d, Some arrival), w') ∧
    generate_route rng (amb_location a) dest_loc 6 (tick_clock w)
      = inr (pts, with_rng_draws (rng_draws w + 12) (tick_clock w)) ∧
    length pts = 6 ∧
    ambulance_objs w'
      = <[ambulance := mkAmbulance (amb_id a) (amb_location a) "en_route"
                         (current_patient a) (destination a) pts (Some arrival)]>
          (ambulance_objs w) ∧
    hospital_objs w' = hospital_objs w ∧ patient_objs w' = patient_objs w ∧
    hospitals w' = hospitals w ∧ ambulances w' = ambulances w ∧
    referral_requests w' = referral_requests w ∧
    referral_history w' = referral_history w ∧
    clock_reads w' = S (clock_reads w) ∧
    rng_draws w' = rng_draws w + 12.
Proof.
  intros Ha Hd Hspeed Hplus.
  rewrite (simulate_movement_run _ _ _ _ _ _ _ _ _ Ha), Hd, Hspeed, Hplus.
  do 2 eexists. split; [reflexivity|]. split.
  { rewrite generate_route_run;
      [reflexivity | lia | pose proof int_float_limit_large; lia]. }
  split; [by rewrite length_map, py_range_length|].
  repeat split; reflexivity.
Qed.


(** [generate_route] with [num_points <= 0]: it raises
    [ZeroDivisionError] for [-1] (the divisor [num_points + 1] is zero),
    raises [OverflowError] when [num_points + 1] is too large a negative
    integer for a float, and for every other such count returns the empty
    route, drawing no random number. *)
Theorem generate_route_without_points
    (w : World) (start end_ : location) (num_points : Z) :
  (num_points ≤ 0)%Z →
  generate_route rng start end_ num_points w
    = if (num_points =? -1)%Z then inl ZeroDivisionError
      else if (int_float_limit <=? - (num_points + 1))%Z then inl OverflowError
      else inr ([], w).
Proof.
  intros Hn. unfold generate_route, float_truediv_int.
  destruct (num_points =? -1)%Z eqn:Hm.
  - apply Z.eqb_eq in Hm. subst. reflexivity.
  - apply Z.eqb_neq in Hm.
    destruct (num_points + 1 =? 0)%Z eqn:Hz; [apply Z.eqb_eq in Hz; lia|].
    destruct (int_float_limit <=? - (num_points + 1))%Z eqn:Hlim.
    + apply Z.leb_le in Hlim. rewrite float_of_int_too_large by lia. reflexivity.
    + apply Z.leb_gt in Hlim. pose proof int_float_limit_large as Hlarge.
      rewrite float_of_int_in_range by lia.
      erewrite bind_inr; [|reflexivity]. erewrite bind_inr; [|reflexivity].
      unfold py_range. replace (Z.to_nat (num_points + 1 - 1)) with 0%nat by lia.
      reflexivity.
Qed.

(** How many points [generate_route] returns: for [num_points = n >= 0]
    with [n + 1] within the range of a float, exactly [n], its [i]-th
    ([1 <= i <= n]) being, in float arithmetic,
    [start + (end - start) / (n + 1) * i + uniform(-0.0005, 0.0005)] in each
    coordinate, with one draw of the generator for the latitude and the
    next one for the longitude, [2 n] draws in all; beyond that range the
    call raises [OverflowError]. *)
Theorem generate_route_count
    (w : World) (start end_ : location) (n : Z) :
  (0 ≤ n)%Z →
  ((n + 1 < int_float_limit)%Z →
     ∃ pts,
       generate_route rng start end_ n w
         = inr (pts, with_rng_draws (rng_draws w + 2 * Z.to_nat n) w) ∧
       length pts = Z.to_nat n ∧
       ∀ i : nat, (1 ≤ i ≤ Z.to_nat n)%nat →
         pts !! (i - 1)%nat
           = Some (route_point rng start end_ n (rng_draws w) (Z.of_nat i))) ∧
  ((int_float_limit ≤ n + 1)%Z →
     generate_route rng start end_ n w = inl OverflowError).
Proof.
  intros Hn. split.
  - intros Hlim. eexists. split; [by apply generate_route_run|].
    split; [rewrite length_map, py_range_length; lia|].
    intros i Hi. change (map ?f ?l) with (f <$> l).
    rewrite list_lookup_fmap, py_range_lookup by lia. simpl.
    by replace (1 + Z.of_nat (i - 1))%Z with (Z.of_nat i) by lia.
  - intros Hlim. unfold generate_route, float_truediv_int.
    destruct (n + 1 =? 0)%Z eqn:Hz; [apply Z.eqb_eq in Hz; lia|].
    rewrite float_of_int_too_large by lia. reflexivity.
Qed.

End TrackerFurther.

Lemma simulate_movement_effect_witness :
  ∃ w' pts,
    simulate_movement clock_minutes rng_half geodesic_30 plus_minutes_exact
      0 siaya 60 session1 = inr ((30%float, Some (1 + 30)%Q), w') ∧
    generate_route rng_half (amb_location amb1_out) siaya 6 (tick_clock session1)
      = inr (pts, with_rng_draws (rng_draws session1 + 12) (tick_clock session1)) ∧
    length pts = 6 ∧
    ambulance_objs w'
      = <[0 := mkAmbulance (amb_id amb1_out) (amb_location amb1_out) "en_route"
                 (current_patient amb1_out) (destination amb1_out) pts
                 (Some (1 + 30)%Q)]>
          (ambulance_objs session1) ∧
    hospital_objs w' = hospital_objs session1 ∧
    patient_objs w' = patient_objs session1 ∧
    hospitals w' = hospitals session1 ∧ ambulances w' = ambulances session1 ∧
    referral_requests w' = referral_requests session1 ∧
    referral_history w' = referral_history session1 ∧
    clock_reads w' = S (clock_reads session1) ∧
    rng_draws w' = rng_draws session1 + 12.
Proof.
  apply (simulate_movement_effect clock_minutes rng_half geodesic_30
           plus_minutes_exact session1 0 siaya 60 amb1_out 30 (1 + 30)%Q).
  - reflexivity.
  - reflexivity.
  - reflexivity.
  - vm_compute. reflexivity.
Defined.


Lemma generate_route_without_points_witness :
  generate_route rng_half kisumu siaya (-3) session0 = inr ([], session0) ∧
  generate_route rng_half kisumu siaya 0 session0 = inr ([], session0) ∧
  generate_route rng_half kisumu siaya (-1) session0 = inl ZeroDivisionError ∧
  generate_route rng_half kisumu siaya (- int_float_limit - 1) session0
    = inl OverflowError.
Proof.
  split; [|split; [|split]].
  - apply (generate_route_without_points rng_half session0 kisumu siaya (-3)). lia.
  - apply (generate_route_without_points rng_half session0 kisumu siaya 0). lia.
  - apply (generate_route_without_points rng_half session0 kisumu siaya (-1)). lia.
  - rewrite (generate_route_without_points rng_half session0 kisumu siaya
               (- int_float_limit - 1)).
    + vm_compute. reflexivity.
    + pose proof int_float_limit_large. lia.
Defined.

Lemma generate_route_count_witness :
  ∃ pts,
    generate_route rng_half kisumu siaya 6 session0
      = inr (pts, with_rng_draws (rng_draws session0 + 2 * Z.to_nat 6) session0) ∧
    length pts = Z.to_nat 6 ∧
    ∀ i : nat, (1 ≤ i ≤ Z.to_nat 6)%nat →
      pts !! (i - 1)%nat
        = Some (route_point rng_half kisumu siaya 6 (rng_draws session0) (Z.of_nat i)).
Proof.
  apply (proj1 (generate_route_count rng_half session0 kisumu siaya 6 ltac:(lia))).
  pose proof int_float_limit_large. lia.
Defined.

(** ** Messaging log *)

Lemma get_messages_for_app messages1 messages2 recipient :
  get_messages_for (messages1 ++ messages2) recipient
    = get_messages_for messages1 recipient ++ get_messages_for messages2 recipient.
Proof. unfold get_messages_for. apply List.filter_app. Qed.

Section CommunicationProperties.
Variable wall_clock : nat → datetime.

(** A sent message lands at the end of the log and of its recipient's
    inbox and nowhere else: [send_message] returns a message with the next
    id, the current clock reading and the read flag off, leaves the earlier
    messages as they were, and afterwards [get_messages_for] gives the old
    inbox followed by the new message for the recipient and the unchanged
    inbox for everyone else. *)
Theorem send_message_reaches_its_inbox
    (w : World) (messages : list Message)
    (sender recipient message_type content : string) (urgent : bool) :
  ∃ msg w',
    send_message wall_clock messages sender recipient message_type content urgent w
      = inr ((msg, messages ++ [msg]), w') ∧
    msg_id msg = (Z.of_nat (length messages) + 1)%Z ∧
    msg_timestamp msg = wall_clock (clock_reads w) ∧
    msg_read msg = false ∧
    msg_sender msg = sender ∧ msg_recipient msg = recipient ∧
    msg_type msg = message_type ∧ msg_content msg = content ∧
    msg_urgent msg = urgent ∧
    w' = tick_clock w ∧
    get_messages_for (messages ++ [msg]) recipient
      = get_messages_for messages recipient ++ [msg] ∧
    ∀ other, other ≠ recipient →
      get_messages_for (messages ++ [msg]) other = get_messages_for messages other.
Proof.
  exists (message_of wall_clock (length messages) (clock_reads w)
            (mkOutgoing sender recipient message_type content urgent)),
         (tick_clock w).
  split; [reflexivity|]. simpl. repeat split.
  - rewrite get_messages_for_app. f_equal. unfold get_messages_for. simpl.
    by rewrite String.eqb_refl.
  - intros other Hne. rewrite get_messages_for_app. unfold get_messages_for at 2.
    simpl. assert (String.eqb recipient other = false) as ->.
    { apply String.eqb_neq. congruence. }
    apply app_nil_r.
Qed.

(** An inbox holds exactly the messages addressed to that recipient, by
    exact string comparison, in the order of the log: nothing is invented,
    nothing addressed to the recipient is left out, nothing is reordered. *)
Theorem inbox_is_exact (messages : list Message) (recipient : string) :
  (∀ m, m ∈ get_messages_for messages recipient
        ↔ m ∈ messages ∧ msg_recipient m = recipient) ∧
  get_messages_for messages recipient `sublist_of` messages ∧
  get_messages_for (get_messages_for messages recipient) recipient
    = get_messages_for messages recipient.
Proof.
  split; [|split].
  - intros m. unfold get_messages_for.
    rewrite !list_elem_of_In, List.filter_In, String.eqb_eq. done.
  - unfold get_messages_for. induction messages as [|m l IH]; simpl; [done|].
    destruct (String.eqb _ _); [by apply sublist_skip|by apply sublist_cons].
  - unfold get_messages_for. induction messages as [|m l IH]; simpl; [done|].
    destruct (String.eqb (msg_recipient m) recipient) eqn:Hm; [|done].
    simpl. by rewrite Hm, IH.
Qed.

Lemma send_messages_run outs : ∀ messages w,
  send_messages wall_clock messages outs w
    = inr (messages ++ imap (λ k o, message_of wall_clock (length messages + k)
                                      (clock_reads w + k) o) outs,
           Nat.iter (length outs) tick_clock w).
Proof.
  induction outs as [|o outs IH]; intros messages w.
  - simpl. unfold ret. by rewrite app_nil_r.
  - simpl send_messages. unfold send_message.
    erewrite bind_inr; [|erewrite bind_inr; [|reflexivity]; reflexivity].
    simpl snd. rewrite IH. f_equal. f_equal.
    + rewrite <- app_assoc. f_equal. simpl. f_equal.
      * unfold message_of. by rewrite !Nat.add_0_r.
      * apply imap_ext. intros k o' _. simpl.
        rewrite length_app. simpl. f_equal; lia.
    + change (length (o :: outs)) with (S (length outs)).
      by rewrite Nat.iter_succ_r.
Qed.

(** A log filled by [send_message] alone numbers its messages 1, 2, 3, ...
    in sending order: starting from a log with ids by position (the empty
    one, say), any run of sends returns, adds one message per request with
    the request's fields, the read flag off and consecutive clock readings
    as timestamps, and leaves ids by position, so no two messages share an
    id. *)
Theorem message_ids_count_up
    (w : World) (messages : list Message) (outs : list Outgoing) :
  log_ids messages →
  ∃ log w',
    send_messages wall_clock messages outs w = inr (log, w') ∧
    length log = length messages + length outs ∧
    log_ids log ∧
    (∀ i m, messages !! i = Some m → log !! i = Some m) ∧
    (∀ k o, outs !! k = Some o →
       ∃ m, log !! (length messages + k) = Some m ∧
            msg_sender m = out_sender o ∧ msg_recipient m = out_recipient o ∧
            msg_type m = out_type o ∧ msg_content m = out_content o ∧
            msg_urgent m = out_urgent o ∧ msg_read m = false ∧
            msg_timestamp m = wall_clock (clock_reads w + k)) ∧
    clock_reads w' = clock_reads w + length outs.
Proof.
  intros Hids. do 2 eexists. split; [apply send_messages_run|].
  split; [by rewrite length_app, length_imap|]. split; [|split; [|split]].
  - intros i m. destruct (decide (i < length messages)) as [Hlt|Hge].
    + rewrite lookup_app_l by done. apply Hids.
    + rewrite lookup_app_r by lia. rewrite list_lookup_imap.
      destruct (outs !! (i - length messages)) as [o|] eqn:Ho; [|done].
      intros [= <-]. simpl. lia.
  - intros i m Hi. rewrite lookup_app_l by (by eapply lookup_lt_Some). done.
  - intros k o Ho. eexists. rewrite lookup_app_r by lia.
    replace (length messages + k - length messages) with k by lia.
    rewrite list_lookup_imap, Ho. simpl. by repeat split.
  - generalize (length outs). intros n. induction n as [|n IH]; simpl; [lia|].
    rewrite IH. lia.
Qed.

End CommunicationProperties.

Lemma message_ids_count_up_witness :
  ∃ log w',
    send_messages clock_minutes [] demo_outs session0 = inr (log, w') ∧
    length log = 0 + length demo_outs ∧
    log_ids log ∧
    (∀ i m, @nil Message !! i = Some m → log !! i = Some m) ∧
    (∀ k o, demo_outs !! k = Some o →
       ∃ m, log !! (0 + k) = Some m ∧
            msg_sender m = out_sender o ∧ msg_recipient m = out_recipient o ∧
            msg_type m = out_type o ∧ msg_content m = out_content o ∧
            msg_urgent m = out_urgent o ∧ msg_read m = false ∧
            msg_timestamp m = clock_minutes (clock_reads session0 + k)) ∧
    clock_reads w' = clock_reads session0 + length demo_outs.
Proof.
  apply (message_ids_count_up clock_minutes session0 [] demo_outs).
  intros i m Hi. destruct i; discriminate Hi.
Defined.

(** ** First-fit never books an ambulance twice *)

Section LedgerBooking.
Variable wall_clock : nat → datetime.

Lemma create_referral_search_inv w patient from_hospital to_hospital r w' :
  create_referral wall_clock patient from_hospital to_hospital None w
    = inr (Some r, w') →
  ∃ a, ambulance_objs w !! ref_ambulance r = Some a ∧
       amb_status a = "available".
Proof.
  intros Hrun. pose proof Hrun as Hinv.
  apply create_referral_inv in Hinv as (a0 & Ha0 & Hr & _).
  unfold create_referral in Hrun.
  apply bind_inv in Hrun as (found & w1 & Hfind & Hrun).
  unfold find_available_ambulance in Hfind.
  apply bind_inv in Hfind as (w0 & w0' & [= <- <-] & Hfind).
  destruct found as [amb|]; [|by injection Hrun].
  apply first_available_sound in Hfind as (-> & _ & a & Ha & Hav).
  apply bind_inv in Hrun as (w2 & w2' & [= <- <-] & Hrun).
  apply bind_inv in Hrun as (t & w3 & [= <- <-] & Hrun).
  apply bind_inv in Hrun as (u & w4 & _ & Hrun).
  apply bind_inv in Hrun as (u' & w5 & _ & Hrun).
  injection Hrun as <- _. simpl. by exists a.
Qed.

(** The search never gives out an ambulance that a referral has just
    taken: when a referral has been created (with the ambulance found or
    supplied) and the next one is created without supplying an ambulance,
    the second gets a different ambulance and the next id. *)
Theorem first_fit_never_rebooks
    (w w1 w2 : World) (ambulance : option ref) (r1 r2 : Referral)
    (patient1 from1 to1 patient2 from2 to2 : ref) :
  create_referral wall_clock patient1 from1 to1 ambulance w = inr (Some r1, w1) →
  create_referral wall_clock patient2 from2 to2 None w1 = inr (Some r2, w2) →
  ref_ambulance r2 ≠ ref_ambulance r1 ∧
  ref_id r2 = (ref_id r1 + 1)%Z ∧
  referral_requests w2 = referral_requests w ++ [r1; r2].
Proof.
  intros Hfirst Hsecond.
  apply create_referral_inv in Hfirst as (a1 & Ha1 & Hr1 & ->).
  destruct (create_referral_search_inv _ _ _ _ _ _ Hsecond) as (a2 & Ha2 & Hav).
  apply create_referral_inv in Hsecond as (a2' & _ & Hr2 & ->).
  split; [|split].
  - intros Heq. simpl in Ha2. rewrite Heq, lookup_insert_eq in Ha2.
    injection Ha2 as <-. discriminate Hav.
  - rewrite Hr2, Hr1. simpl. rewrite length_app. simpl. lia.
  - simpl. by rewrite <- app_assoc.
Qed.

End LedgerBooking.

Lemma first_fit_never_rebooks_witness :
  ∃ w1 w2 r1 r2,
    create_referral clock_minutes 0 0 1 None
      (with_ambulances (λ l, l ++ [5])
         (with_ambulance_objs (insert 5 (Ambulance_init "AMB2" siaya)) session0))
      = inr (Some r1, w1) ∧
    create_referral clock_minutes 0 1 0 None w1 = inr (Some r2, w2) ∧
    ref_ambulance r1 = 0 ∧ ref_ambulance r2 = 5 ∧
    ref_ambulance r2 ≠ ref_ambulance r1 ∧
    ref_id r2 = (ref_id r1 + 1)%Z ∧
    referral_requests w2 = [r1; r2].
Proof.
  do 4 eexists.
  assert (∀ A B C D E : Prop, A → B → C → D → (A → B → E) → A ∧ B ∧ C ∧ D ∧ E)
    as Hpack by tauto.
  apply Hpack.
  - vm_compute. reflexivity.
  - vm_compute. reflexivity.
  - reflexivity.
  - reflexivity.
  - intros H1 H2.
    exact (first_fit_never_rebooks clock_minutes _ _ _ None _ _ 0 0 1 0 1 0 H1 H2).
Defined.
